(** * Voice session core of the Learn-English tutor (src/App.tsx)

    A shallow embedding of the session logic of [App.tsx]: the React state
    and the refs of the [App] component become one record, every handler
    becomes a function over that record in a state monad with exceptions,
    and the calls into the browser and the Live SDK are recorded in a
    trace.  Clock readings and durations are doubles, held as the rationals
    they denote, and a sum is rounded to the nearest double.  The PCM codec
    lives in [utils/audioUtils]: the handlers take the decoder as a
    parameter, and the codec itself is modelled from the specification in
    the module [AudioCodec]. *)

From Stdlib Require Import String Ascii ZArith QArith Qabs Qround Qpower Lia Lqa.
From Stdlib Require Import DecimalString.
From stdpp Require Import base list option strings.
Import ListNotations.

Local Open Scope string_scope.
Local Open Scope list_scope.

(** ** Data model (src/types.ts) *)

Inductive LearningMode : Type := GUIDED_TRANSLATION | FREE_TALK.

Record Scenario : Type := mkScenario {
  scenario_id : string;
  title : string;
  description : string;
  icon : string
}.

Inductive Role : Type := user | model.

(** [isPartial?: boolean] and [correction?: string] are optional fields:
    [None] stands for [undefined]. *)
Record ChatMessage : Type := mkChatMessage {
  id : string;
  role : Role;
  text : string;
  isPartial : option bool;
  correction : option string
}.

Inductive ConnectionStatus : Type := disconnected | connecting | connected | error.

Inductive Step : Type := setup | session.

Inductive AudioMode : Type := listening | speaking | idle.

#[global] Instance Role_eq_dec : EqDecision Role.
Proof. solve_decision. Defined.

(** ** Server messages (the part of [LiveServerMessage] the handler reads) *)

Record Blob : Type := mkBlob { data : option string }.
Record Part : Type := mkPart { inlineData : option Blob }.
Record Content : Type := mkContent { parts : option (list Part) }.
Record Transcription : Type := mkTranscription { transcription_text : option string }.

Record ServerContent : Type := mkServerContent {
  modelTurn : option Content;
  inputTranscription : option Transcription;
  outputTranscription : option Transcription;
  turnComplete : option bool
}.

Record LiveServerMessage : Type := mkLiveServerMessage {
  serverContent : option ServerContent
}.

(** ** Browser and SDK objects held by the refs *)

(** Time on the audio clock, in seconds: a JavaScript number, held as the
    rational it denotes. *)
Definition Time : Type := Q.

Record AudioBuffer : Type := mkAudioBuffer { duration : Time }.

Record AudioContext : Type := mkAudioContext { sampleRate : Z; closed : bool }.

Record MediaStream : Type := mkMediaStream { tracks : nat }.

Record ScriptProcessorNode : Type := mkScriptProcessor { bufferSize : Z }.

Record SessionPromise : Type := mkSessionPromise {
  session_mode : LearningMode;
  session_scenario : Scenario
}.

(** An [AudioBufferSourceNode] is identified by the order of its creation. *)
Definition Handle : Type := nat.

(** The nodes of the two audio graphs: the microphone source, the script
    processor and the destination of the input context; the buffer
    sources, their gain nodes and the destination of the output context. *)
Inductive Node : Type :=
| MicrophoneSource
| Processor
| InputDestination
| BufferSource (h : Handle)
| Gain (h : Handle)
| OutputDestination.

(** The calls into the browser and the Live SDK, in the order they are
    made.  [SessionThenClose] is [sessionRef.current.then(session =>
    session.close())]: the callback is handed to the promise and runs once
    the promise has resolved, after the handler has returned.  The decoder
    of [utils/audioUtils] is a parameter of the handlers, and the readings
    of the audio clock and of [Date.now()] come with the events. *)
Inductive Effect : Type :=
| Alert (msg : string)
| ConsoleLog (msg : string)
| ConsoleError (msg : string)
| NewGoogleGenAI (apiKey : string)
| NewAudioContext (rate : Z)
| GetUserMedia
| LiveConnect (mode : LearningMode) (sc : Scenario)
| CreateMediaStreamSource
| CreateScriptProcessor (size inputChannels outputChannels : Z)
| CreateBufferSource (h : Handle)
| CreateGain (h : Handle)
| Connect (source destination : Node)
| SessionThenClose
| TrackStop
| ProcessorDisconnect
| ContextClose (rate : Z)
| SourceStart (h : Handle) (when : Time) (d : Time)
| SourceStop (h : Handle)
| SetTimeout (ms : Z).

Inductive Exn : Type :=
| TypeError
| DecodeError
| DeviceError.

(** ** Constants *)

Definition INPUT_SAMPLE_RATE : Z := 16000.
Definition OUTPUT_SAMPLE_RATE : Z := 24000.

(** ** Component state

    The first seven fields are the [useState] cells, the next nine the
    [useRef] cells.  The last four describe the browser side: how many
    source nodes were created, which started nodes have not yet delivered
    their [ended] event, how many [setTimeout] callbacks are pending (all of
    them are [() => setAudioMode('listening')]), and the trace of calls. *)

Record State : Type := mkState {
  currentStep : Step;
  selectedScenario : option Scenario;
  customScenario : string;
  learningMode : LearningMode;
  status : ConnectionStatus;
  messages : list ChatMessage;
  audioMode : AudioMode;
  sessionRef : option SessionPromise;
  inputContextRef : option AudioContext;
  outputContextRef : option AudioContext;
  nextStartTimeRef : Time;
  sourcesRef : list Handle;
  streamRef : option MediaStream;
  scriptProcessorRef : option ScriptProcessorNode;
  currentInputTransRef : string;
  currentOutputTransRef : string;
  nodes : nat;
  pendingEnded : list Handle;
  timers : nat;
  effects : list Effect
}.

Definition setCurrentStep (v : Step) (s : State) : State :=
  mkState v (s.(selectedScenario)) (s.(customScenario)) (s.(learningMode)) (s.(status))
  (s.(messages)) (s.(audioMode)) (s.(sessionRef)) (s.(inputContextRef))
  (s.(outputContextRef)) (s.(nextStartTimeRef)) (s.(sourcesRef)) (s.(streamRef))
  (s.(scriptProcessorRef)) (s.(currentInputTransRef)) (s.(currentOutputTransRef))
  (s.(nodes)) (s.(pendingEnded)) (s.(timers)) (s.(effects)).

Definition setSelectedScenario (v : option Scenario) (s : State) : State :=
  mkState (s.(currentStep)) v (s.(customScenario)) (s.(learningMode)) (s.(status))
  (s.(messages)) (s.(audioMode)) (s.(sessionRef)) (s.(inputContextRef))
  (s.(outputContextRef)) (s.(nextStartTimeRef)) (s.(sourcesRef)) (s.(streamRef))
  (s.(scriptProcessorRef)) (s.(currentInputTransRef)) (s.(currentOutputTransRef))
  (s.(nodes)) (s.(pendingEnded)) (s.(timers)) (s.(effects)).

Definition setCustomScenario (v : string) (s : State) : State :=
  mkState (s.(currentStep)) (s.(selectedScenario)) v (s.(learningMode)) (s.(status))
  (s.(messages)) (s.(audioMode)) (s.(sessionRef)) (s.(inputContextRef))
  (s.(outputContextRef)) (s.(nextStartTimeRef)) (s.(sourcesRef)) (s.(streamRef))
  (s.(scriptProcessorRef)) (s.(currentInputTransRef)) (s.(currentOutputTransRef))
  (s.(nodes)) (s.(pendingEnded)) (s.(timers)) (s.(effects)).

Definition setLearningMode (v : LearningMode) (s : State) : State :=
  mkState (s.(currentStep)) (s.(selectedScenario)) (s.(customScenario)) v (s.(status))
  (s.(messages)) (s.(audioMode)) (s.(sessionRef)) (s.(inputContextRef))
  (s.(outputContextRef)) (s.(nextStartTimeRef)) (s.(sourcesRef)) (s.(streamRef))
  (s.(scriptProcessorRef)) (s.(currentInputTransRef)) (s.(currentOutputTransRef))
  (s.(nodes)) (s.(pendingEnded)) (s.(timers)) (s.(effects)).
Definition setStatus (v : ConnectionStatus) (s : State) : State :=
  mkState (s.(currentStep)) (s.(selectedScenario)) (s.(customScenario)) (s.(learningMode)) v
  (s.(messages)) (s.(audioMode)) (s.(sessionRef)) (s.(inputContextRef))
  (s.(outputContextRef)) (s.(nextStartTimeRef)) (s.(sourcesRef)) (s.(streamRef))
  (s.(scriptProcessorRef)) (s.(currentInputTransRef)) (s.(currentOutputTransRef))
  (s.(nodes)) (s.(pendingEnded)) (s.(timers)) (s.(effects)).

Definition putMessages (v : list ChatMessage) (s : State) : State :=
  mkState (s.(currentStep)) (s.(selectedScenario)) (s.(customScenario)) (s.(learningMode))
  (s.(status)) v (s.(audioMode)) (s.(sessionRef)) (s.(inputContextRef))
  (s.(outputContextRef)) (s.(nextStartTimeRef)) (s.(sourcesRef)) (s.(streamRef))
  (s.(scriptProcessorRef)) (s.(currentInputTransRef)) (s.(currentOutputTransRef))
  (s.(nodes)) (s.(pendingEnded)) (s.(timers)) (s.(effects)).

Definition setAudioMode (v : AudioMode) (s : State) : State :=
  mkState (s.(currentStep)) (s.(selectedScenario)) (s.(customScenario)) (s.(learningMode))
  (s.(status)) (s.(messages)) v (s.(sessionRef)) (s.(inputContextRef))
  (s.(outputContextRef)) (s.(nextStartTimeRef)) (s.(sourcesRef)) (s.(streamRef))
  (s.(scriptProcessorRef)) (s.(currentInputTransRef)) (s.(currentOutputTransRef))
  (s.(nodes)) (s.(pendingEnded)) (s.(timers)) (s.(effects)).

Definition set_sessionRef (v : option SessionPromise) (s : State) : State :=
  mkState (s.(currentStep)) (s.(selectedScenario)) (s.(customScenario)) (s.(learningMode))
  (s.(status)) (s.(messages)) (s.(audioMode)) v (s.(inputContextRef)) (s.(outputContextRef))
  (s.(nextStartTimeRef)) (s.(sourcesRef)) (s.(streamRef)) (s.(scriptProcessorRef))
  (s.(currentInputTransRef)) (s.(currentOutputTransRef)) (s.(nodes)) (s.(pendingEnded))
  (s.(timers)) (s.(effects)).

Definition set_inputContextRef (v : option AudioContext) (s : State) : State :=
  mkState (s.(currentStep)) (s.(selectedScenario)) (s.(customScenario)) (s.(learningMode))
  (s.(status)) (s.(messages)) (s.(audioMode)) (s.(sessionRef)) v (s.(outputContextRef))
  (s.(nextStartTimeRef)) (s.(sourcesRef)) (s.(streamRef)) (s.(scriptProcessorRef))
  (s.(currentInputTransRef)) (s.(currentOutputTransRef)) (s.(nodes)) (s.(pendingEnded))
  (s.(timers)) (s.(effects)).

Definition set_outputContextRef (v : option AudioContext) (s : State) : State :=
  mkState (s.(currentStep)) (s.(selectedScenario)) (s.(customScenario)) (s.(learningMode))
  (s.(status)) (s.(messages)) (s.(audioMode)) (s.(sessionRef)) (s.(inputContextRef)) v
  (s.(nextStartTimeRef)) (s.(sourcesRef)) (s.(streamRef)) (s.(scriptProcessorRef))
  (s.(currentInputTransRef)) (s.(currentOutputTransRef)) (s.(nodes)) (s.(pendingEnded))
  (s.(timers)) (s.(effects)).

Definition set_nextStartTimeRef (v : Q) (s : State) : State :=
  mkState (s.(currentStep)) (s.(selectedScenario)) (s.(customScenario)) (s.(learningMode))
  (s.(status)) (s.(messages)) (s.(audioMode)) (s.(sessionRef)) (s.(inputContextRef))
  (s.(outputContextRef)) v (s.(sourcesRef)) (s.(streamRef)) (s.(scriptProcessorRef))
  (s.(currentInputTransRef)) (s.(currentOutputTransRef)) (s.(nodes)) (s.(pendingEnded))
  (s.(timers)) (s.(effects)).

Definition set_sourcesRef (v : list Handle) (s : State) : State :=
  mkState (s.(currentStep)) (s.(selectedScenario)) (s.(customScenario)) (s.(learningMode))
  (s.(status)) (s.(messages)) (s.(audioMode)) (s.(sessionRef)) (s.(inputContextRef))
  (s.(outputContextRef)) (s.(nextStartTimeRef)) v (s.(streamRef)) (s.(scriptProcessorRef))
  (s.(currentInputTransRef)) (s.(currentOutputTransRef)) (s.(nodes)) (s.(pendingEnded))
  (s.(timers)) (s.(effects)).

Definition set_streamRef (v : option MediaStream) (s : State) : State :=
  mkState (s.(currentStep)) (s.(selectedScenario)) (s.(customScenario)) (s.(learningMode))
  (s.(status)) (s.(messages)) (s.(audioMode)) (s.(sessionRef)) (s.(inputContextRef))
  (s.(outputContextRef)) (s.(nextStartTimeRef)) (s.(sourcesRef)) v (s.(scriptProcessorRef))
  (s.(currentInputTransRef)) (s.(currentOutputTransRef)) (s.(nodes)) (s.(pendingEnded))
  (s.(timers)) (s.(effects)).

Definition set_scriptProcessorRef (v : option ScriptProcessorNode) (s : State) : State :=
  mkState (s.(currentStep)) (s.(selectedScenario)) (s.(customScenario)) (s.(learningMode))
  (s.(status)) (s.(messages)) (s.(audioMode)) (s.(sessionRef)) (s.(inputContextRef))
  (s.(outputContextRef)) (s.(nextStartTimeRef)) (s.(sourcesRef)) (s.(streamRef)) v
  (s.(currentInputTransRef)) (s.(currentOutputTransRef)) (s.(nodes)) (s.(pendingEnded))
  (s.(timers)) (s.(effects)).

Definition set_currentInputTransRef (v : string) (s : State) : State :=
  mkState (s.(currentStep)) (s.(selectedScenario)) (s.(customScenario)) (s.(learningMode))
  (s.(status)) (s.(messages)) (s.(audioMode)) (s.(sessionRef)) (s.(inputContextRef))
  (s.(outputContextRef)) (s.(nextStartTimeRef)) (s.(sourcesRef)) (s.(streamRef))
  (s.(scriptProcessorRef)) v (s.(currentOutputTransRef)) (s.(nodes)) (s.(pendingEnded))
  (s.(timers)) (s.(effects)).

Definition set_currentOutputTransRef (v : string) (s : State) : State :=
  mkState (s.(currentStep)) (s.(selectedScenario)) (s.(customScenario)) (s.(learningMode))
  (s.(status)) (s.(messages)) (s.(audioMode)) (s.(sessionRef)) (s.(inputContextRef))
  (s.(outputContextRef)) (s.(nextStartTimeRef)) (s.(sourcesRef)) (s.(streamRef))
  (s.(scriptProcessorRef)) (s.(currentInputTransRef)) v (s.(nodes)) (s.(pendingEnded))
  (s.(timers)) (s.(effects)).

Definition set_nodes (v : nat) (s : State) : State :=
  mkState (s.(currentStep)) (s.(selectedScenario)) (s.(customScenario)) (s.(learningMode))
  (s.(status)) (s.(messages)) (s.(audioMode)) (s.(sessionRef)) (s.(inputContextRef))
  (s.(outputContextRef)) (s.(nextStartTimeRef)) (s.(sourcesRef)) (s.(streamRef))
  (s.(scriptProcessorRef)) (s.(currentInputTransRef)) (s.(currentOutputTransRef)) v
  (s.(pendingEnded)) (s.(timers)) (s.(effects)).

Definition set_pendingEnded (v : list Handle) (s : State) : State :=
  mkState (s.(currentStep)) (s.(selectedScenario)) (s.(customScenario)) (s.(learningMode))
  (s.(status)) (s.(messages)) (s.(audioMode)) (s.(sessionRef)) (s.(inputContextRef))
  (s.(outputContextRef)) (s.(nextStartTimeRef)) (s.(sourcesRef)) (s.(streamRef))
  (s.(scriptProcessorRef)) (s.(currentInputTransRef)) (s.(currentOutputTransRef))
  (s.(nodes)) v (s.(timers)) (s.(effects)).

Definition set_timers (v : nat) (s : State) : State :=
  mkState (s.(currentStep)) (s.(selectedScenario)) (s.(customScenario)) (s.(learningMode))
  (s.(status)) (s.(messages)) (s.(audioMode)) (s.(sessionRef)) (s.(inputContextRef))
  (s.(outputContextRef)) (s.(nextStartTimeRef)) (s.(sourcesRef)) (s.(streamRef))
  (s.(scriptProcessorRef)) (s.(currentInputTransRef)) (s.(currentOutputTransRef))
  (s.(nodes)) (s.(pendingEnded)) v (s.(effects)).

Definition set_effects (v : list Effect) (s : State) : State :=
  mkState (s.(currentStep)) (s.(selectedScenario)) (s.(customScenario)) (s.(learningMode))
  (s.(status)) (s.(messages)) (s.(audioMode)) (s.(sessionRef)) (s.(inputContextRef))
  (s.(outputContextRef)) (s.(nextStartTimeRef)) (s.(sourcesRef)) (s.(streamRef))
  (s.(scriptProcessorRef)) (s.(currentInputTransRef)) (s.(currentOutputTransRef))
  (s.(nodes)) (s.(pendingEnded)) (s.(timers)) v.

(** ** Handlers run in a state monad with exceptions

    A handler that throws keeps the writes it made before the throw, so the
    state is threaded through both outcomes. *)

Inductive Completion (A : Type) : Type :=
| Normal (a : A)
| Throw (e : Exn).
Arguments Normal {A} a.
Arguments Throw {A} e.

Definition M (A : Type) : Type := State -> Completion A * State.

#[global] Instance M_ret : MRet M := fun A a s => (Normal a, s).

#[global] Instance M_bind : MBind M := fun A B k c s =>
  match c s with
  | (Normal a, s') => k a s'
  | (Throw e, s') => (Throw e, s')
  end.

#[global] Instance M_throw : MThrow Exn M := fun A e s => (Throw e, s).

Definition try_catch {A : Type} (c : M A) (handler : Exn -> M A) : M A := fun s =>
  match c s with
  | (Normal a, s') => (Normal a, s')
  | (Throw e, s') => handler e s'
  end.

Definition gets {A : Type} (f : State -> A) : M A := fun s => (Normal (f s), s).

Definition modify (f : State -> State) : M unit := fun s => (Normal tt, f s).

Definition call (e : Effect) : M unit :=
  modify (fun s => set_effects (s.(effects) ++ [e]) s).

Definition calls (es : list Effect) : M unit :=
  modify (fun s => set_effects (s.(effects) ++ es) s).

Definition when (b : bool) (c : M unit) : M unit := if b then c else mret tt.

(** The state a handler leaves behind, whatever its outcome. *)
Definition exec {A : Type} (c : M A) (s : State) : State := snd (c s).

(** Property access through a reference that may be [null]. *)
Definition deref {A : Type} (r : option A) : M A :=
  match r with
  | Some a => mret a
  | None => mthrow TypeError
  end.

(** ** JavaScript primitives used by the handlers *)

(** Truthiness of a nullable reference and of a string. *)
Definition truthy {A : Type} (r : option A) : bool :=
  match r with Some _ => true | None => false end.

Definition nonempty (str : string) : bool :=
  match str with EmptyString => false | String _ _ => true end.

(** Truthiness of an optional boolean ([undefined] is falsy). *)
Definition is_true (b : option bool) : bool :=
  match b with Some true => true | _ => false end.

(** [Math.max] on two numbers. *)
Definition Math_max (a b : Time) : Time := if Qle_bool a b then b else a.

(** *** Numbers

    A JavaScript number is an IEEE 754 double.  The finite doubles are the
    rationals [m * 2^e] with [|m| <= 2^53] and [-1074 <= e]; the exponent
    is not bounded from above here, so [Infinity] and [NaN] do not arise
    (a sum of clock readings and durations stays far below [2^1024]), and
    the two zeros are one. *)
Definition is_double (q : Q) : Prop :=
  exists m e : Z, (Z.abs m <= 2 ^ 53)%Z /\ (-1074 <= e)%Z /\ (q == inject_Z m * 2 ^ e)%Q.

(** [floor (log2 q)] of a positive rational. *)
Definition ilog2 (q : Q) : Z :=
  let k := (Z.log2 (Qnum q) - Z.log2 (Zpos (Qden q)))%Z in
  if Qle_bool (2 ^ k) q then k else (k - 1)%Z.

(** The nearest integer, a tie going to the even one. *)
Definition round_even (x : Q) : Z :=
  let n := Qfloor x in
  match Qcompare (x - inject_Z n) (1 # 2) with
  | Lt => n
  | Eq => if Z.even n then n else (n + 1)%Z
  | Gt => (n + 1)%Z
  end.

(** The double nearest to a positive rational: 53 significant bits, or a
    multiple of [2^-1074] below [2^-1022]. *)
Definition double_pos (q : Q) : Q :=
  let e := Z.max (ilog2 q - 52) (-1074) in
  Qred (inject_Z (round_even (q / 2 ^ e)) * 2 ^ e).

(** The double nearest to a rational (round to nearest, ties to even). *)
Definition double (q : Q) : Q :=
  match Qnum q with
  | Z0 => 0%Q
  | Zpos _ => double_pos q
  | Zneg _ => (- double_pos (- q))%Q
  end.

(** [a + b] on two numbers: the exact sum, rounded. *)
Definition Number_add (a b : Time) : Time := double (a + b).

(** Strings are held as their UTF-8 bytes, as the literals of the file
    are.  [String.prototype.trim] strips the white space and the line
    terminators of ECMAScript from both ends: TAB, LF, VT, FF, CR and SP
    (one byte each), U+00A0 (two bytes), and U+1680, U+2000 to U+200A,
    U+2028, U+2029, U+202F, U+205F, U+3000 and U+FEFF (three bytes each). *)
Definition isWhiteSpace1 (c : ascii) : bool :=
  let n := nat_of_ascii c in
  ((9 <=? n)%nat && (n <=? 13)%nat) || (n =? 32)%nat.

Definition isWhiteSpace2 (c1 c2 : ascii) : bool :=
  (nat_of_ascii c1 =? 194)%nat && (nat_of_ascii c2 =? 160)%nat.

Definition isWhiteSpace3 (c1 c2 c3 : ascii) : bool :=
  let n1 := nat_of_ascii c1 in
  let n2 := nat_of_ascii c2 in
  let n3 := nat_of_ascii c3 in
  ((n1 =? 225) && (n2 =? 154) && (n3 =? 128) ||
   (n1 =? 226) && (n2 =? 128) &&
     ((128 <=? n3) && (n3 <=? 138) || (n3 =? 168) || (n3 =? 169) || (n3 =? 175)) ||
   (n1 =? 226) && (n2 =? 129) && (n3 =? 159) ||
   (n1 =? 227) && (n2 =? 128) && (n3 =? 128) ||
   (n1 =? 239) && (n2 =? 187) && (n3 =? 191))%nat.

(** Strips white space from the front of [str].  With [backwards] the
    bytes of [str] are taken to come last byte first, as they do in a
    reversed string. *)
Fixpoint strip (backwards : bool) (str : string) : string :=
  match str with
  | String c1 rest1 =>
      if isWhiteSpace1 c1 then strip backwards rest1
      else
        match rest1 with
        | String c2 rest2 =>
            if (if backwards then isWhiteSpace2 c2 c1 else isWhiteSpace2 c1 c2)
            then strip backwards rest2
            else
              match rest2 with
              | String c3 rest3 =>
                  if (if backwards then isWhiteSpace3 c3 c2 c1
                      else isWhiteSpace3 c1 c2 c3)
                  then strip backwards rest3
                  else str
              | EmptyString => str
              end
        | EmptyString => str
        end
  | EmptyString => EmptyString
  end.

Definition trimStart (str : string) : string := strip false str.

Definition trimEnd (str : string) : string := String.rev (strip true (String.rev str)).

Definition trim (str : string) : string := trimEnd (trimStart str).

(** [Date.now().toString()]: the clock reading in decimal. *)
Definition toString (n : N) : string := NilZero.string_of_uint (N.to_uint n).

(** String concatenation with a fragment that may be [undefined]. *)
Definition concat_fragment (buffer : string) (fragment : option string) : string :=
  buffer +:+ default "undefined" fragment.

(** The source set [Set<AudioBufferSourceNode>], in insertion order. *)
Definition Set_add (h : Handle) (set : list Handle) : list Handle :=
  if bool_decide (h ∈ set) then set else set ++ [h].

Definition Set_delete (h : Handle) (set : list Handle) : list Handle :=
  filter (fun x => x <> h) set.

(** ** updateLastMessage (App.tsx 242-259)

    The updater passed to [setMessages]; [now] is the reading of
    [Date.now()]. *)
Definition updateLastMessage (r : Role) (txt : string) (partial : bool) (now : N)
    (prev : list ChatMessage) : list ChatMessage :=
  match last prev with
  | Some lastMsg =>
      if bool_decide (lastMsg.(role) = r) && is_true lastMsg.(isPartial) then
        (* Update existing partial message *)
        take (length prev - 1) prev ++
          [mkChatMessage lastMsg.(id) lastMsg.(role) txt (Some partial) lastMsg.(correction)]
      else
        (* Add new message *)
        prev ++ [mkChatMessage (toString now) r txt (Some partial) None]
  | None =>
      prev ++ [mkChatMessage (toString now) r txt (Some partial) None]
  end.

Definition setMessages (f : list ChatMessage -> list ChatMessage) : M unit :=
  modify (fun s => putMessages (f s.(messages)) s).

(** ** The transcript buffers, one per speaker *)

Definition buffer (r : Role) (s : State) : string :=
  match r with
  | user => s.(currentInputTransRef)
  | model => s.(currentOutputTransRef)
  end.

Definition set_buffer (r : Role) (v : string) : State -> State :=
  match r with
  | user => set_currentInputTransRef v
  | model => set_currentOutputTransRef v
  end.

(** App.tsx 217-219 and 223-224: accumulate a fragment and show the
    accumulated text as a partial message. *)
Definition appendPartial (r : Role) (fragment : option string) (now : N) : M unit :=
  modify (fun s => set_buffer r (concat_fragment (buffer r s) fragment) s) ;;
  txt ← gets (buffer r) ;
  setMessages (updateLastMessage r txt true now).

(** App.tsx 229-232 and 233-236: commit a speaker's pending text. *)
Definition commit (r : Role) (now : N) : M unit :=
  txt ← gets (buffer r) ;
  when (nonempty txt)
    (setMessages (updateLastMessage r txt false now) ;;
     modify (set_buffer r "")).

(** ** Playback callbacks (App.tsx 205-211) *)

(** [source.onended] of the node [h]. *)
Definition onended (h : Handle) : M unit :=
  modify (fun s => set_sourcesRef (Set_delete h s.(sourcesRef)) s) ;;
  srcs ← gets sourcesRef ;
  when (length srcs =? 0)%nat
    (* Slight delay to revert to idle or listening *)
    (call (SetTimeout 200) ;;
     modify (fun s => set_timers (S s.(timers)) s)).

(** The callback handed to [setTimeout]. *)
Definition ontimeout : M unit := modify (setAudioMode listening).

(** [serverContent?.modelTurn?.parts?.[0]?.inlineData?.data] *)
Definition optional_audio (serverContent : option ServerContent) : option string :=
  content ← serverContent ;
  turn ← content.(modelTurn) ;
  ps ← turn.(parts) ;
  part ← head ps ;
  blob ← part.(inlineData) ;
  blob.(data).

(** ** What the environment decides when a session starts *)

Record Env : Type := mkEnv {
  API_KEY : option string;            (* process.env.API_KEY *)
  audioContextAvailable : bool;       (* new AudioContext(...) succeeds *)
  getUserMedia : option MediaStream   (* None: the promise rejects *)
}.

Inductive Event : Type :=
| SelectScenario (sc : Scenario)
| TypeCustomScenario (txt : string)
| SelectMode (mode : LearningMode)
| ClickStart (env : Env)
| ClickEnd
| OnOpen
| OnMessage (message : LiveServerMessage) (currentTime : Time) (now : N)
| OnClose
| OnError
| Ended (h : Handle)
| Timeout.

Section Session.

(** [decodeAudioData(decode(base64), ctx, OUTPUT_SAMPLE_RATE, 1)] of
    [utils/audioUtils]: the decoded buffer, or [None] when either call
    throws.  In [OnMessage] the promise it returns settles before the next
    event is dispatched, so the handler runs to its end; the slices further
    down cut the handler at the [await]. *)
Variable decodeAudio : string -> option AudioBuffer.

(** *** startSession (App.tsx 53-153)

    [await getUserMedia] is resolved by [env]; no other event is taken to
    arrive while it is pending. *)
Definition newAudioContext (env : Env) (rate : Z) : M AudioContext :=
  if env.(audioContextAvailable)
  then call (NewAudioContext rate) ;; mret (mkAudioContext rate false)
  else mthrow TypeError.

Definition startSession (env : Env) : M unit :=
  if negb (truthy env.(API_KEY) && nonempty (default "" env.(API_KEY))) then
    call (Alert "API Key is missing in environment variables.")
  else
    custom ← gets customScenario ;
    selected ← gets selectedScenario ;
    let finalScenario :=
      if nonempty (trim custom)
      then Some (mkScenario "custom" "Custom Topic" custom "‚ú®")
      else selected in
    match finalScenario with
    | None => call (Alert "Please select or define a scenario.")
    | Some finalScenario =>
        modify (setStatus connecting) ;;
        modify (setCurrentStep session) ;;
        setMessages (fun _ => []) ;;
        try_catch
          (call (NewGoogleGenAI (default "" env.(API_KEY))) ;;
           (* Initialize Audio Contexts *)
           input ← newAudioContext env INPUT_SAMPLE_RATE ;
           modify (set_inputContextRef (Some input)) ;;
           output ← newAudioContext env OUTPUT_SAMPLE_RATE ;
           modify (set_outputContextRef (Some output)) ;;
           modify (set_nextStartTimeRef 0%Q) ;;
           (* Get Microphone Stream *)
           call GetUserMedia ;;
           stream ← match env.(getUserMedia) with
                    | Some stream => mret stream
                    | None => mthrow DeviceError
                    end ;
           modify (set_streamRef (Some stream)) ;;
           (* Connect to Live API *)
           mode ← gets learningMode ;
           call (LiveConnect mode finalScenario) ;;
           modify (set_sessionRef (Some (mkSessionPromise mode finalScenario))))
          (fun _ =>
             call (ConsoleError "Failed to start session:") ;;
             modify (setStatus error))
    end.

(** *** setupAudioInput (App.tsx 156-174) *)
Definition setupAudioInput : M unit :=
  input ← gets inputContextRef ;
  stream ← gets streamRef ;
  if negb (truthy input) || negb (truthy stream) then mret tt
  else
    call CreateMediaStreamSource ;;
    call (CreateScriptProcessor 4096 1 1) ;;
    modify (set_scriptProcessorRef (Some (mkScriptProcessor 4096))) ;;
    call (Connect MicrophoneSource Processor) ;;
    call (Connect Processor InputDestination).

(** *** Transport callbacks (App.tsx 131-143) *)
Definition onopen : M unit :=
  modify (setStatus connected) ;;
  setupAudioInput.

Definition onclose : M unit :=
  call (ConsoleLog "Session closed") ;;
  modify (setStatus disconnected).

Definition onerror : M unit :=
  call (ConsoleError "Session error") ;;
  modify (setStatus error).

(** *** handleLiveMessage (App.tsx 177-239)

    [currentTime] is the reading of the output context's clock and [now]
    the reading of [Date.now()] while the message is handled. *)

(** App.tsx 183-186: what the handler does before it awaits the decoder. *)
Definition beginAudio (currentTime : Time) : M unit :=
  modify (setAudioMode speaking) ;;
  (* Adjust start time *)
  modify (fun s => set_nextStartTimeRef (Math_max s.(nextStartTimeRef) currentTime) s).

(** App.tsx 195-211: what it does with the decoded buffer. *)
Definition resumeAudio (audioBuffer : AudioBuffer) : M unit :=
  source ← gets nodes ;
  modify (fun s => set_nodes (S s.(nodes)) s) ;;
  calls [CreateBufferSource source; CreateGain source;
         Connect (BufferSource source) (Gain source);
         Connect (Gain source) OutputDestination] ;;
  startAt ← gets nextStartTimeRef ;
  call (SourceStart source startAt audioBuffer.(duration)) ;;
  modify (fun s =>
            set_nextStartTimeRef (Number_add s.(nextStartTimeRef) audioBuffer.(duration)) s) ;;
  modify (fun s => set_sourcesRef (Set_add source s.(sourcesRef)) s) ;;
  modify (fun s => set_pendingEnded (s.(pendingEnded) ++ [source]) s).

Definition scheduleAudio (base64Audio : string) (currentTime : Time) : M unit :=
  beginAudio currentTime ;;
  audioBuffer ← match decodeAudio base64Audio with
                | Some b => mret b
                | None => mthrow DecodeError
                end ;
  resumeAudio audioBuffer.

(** App.tsx 214-238: the transcription fragments and the turn marker. *)
Definition transcripts (message : LiveServerMessage) (now : N) : M unit :=
  let serverContent := message.(serverContent) in
  (* 2. Handle Transcriptions *)
  match content ← serverContent ; content.(inputTranscription) with
  | Some t =>
      modify (setAudioMode listening) ;;
      appendPartial user t.(transcription_text) now
  | None => mret tt
  end ;;
  match content ← serverContent ; content.(outputTranscription) with
  | Some t => appendPartial model t.(transcription_text) now
  | None => mret tt
  end ;;
  (* 3. Handle Turn Complete (Commit messages) *)
  when (is_true (content ← serverContent ; content.(turnComplete)))
    (commit user now ;;
     commit model now).

Definition handleLiveMessage (message : LiveServerMessage) (currentTime : Time) (now : N)
    : M unit :=
  let serverContent := message.(serverContent) in
  (* 1. Handle Audio Output *)
  let base64Audio := optional_audio serverContent in
  output ← gets outputContextRef ;
  when (nonempty (default "" base64Audio) && truthy output)
    (scheduleAudio (default "" base64Audio) currentTime) ;;
  transcripts message now.

(** *** endSession (App.tsx 262-294) *)
Definition closeContext (ctx : AudioContext) : M AudioContext :=
  call (ContextClose ctx.(sampleRate)) ;;
  mret (mkAudioContext ctx.(sampleRate) true).

Definition endSession : M unit :=
  (* Close Live Session *)
  sessionPromise ← gets sessionRef ;
  when (truthy sessionPromise)
    (_ ← deref sessionPromise ;
     call SessionThenClose ;;
     modify (set_sessionRef None)) ;;
  (* Stop Audio Stream *)
  stream ← gets streamRef ;
  when (truthy stream)
    (mediaStream ← deref stream ;
     calls (replicate mediaStream.(tracks) TrackStop) ;;
     modify (set_streamRef None)) ;;
  (* Stop Audio Processing *)
  processor ← gets scriptProcessorRef ;
  input ← gets inputContextRef ;
  when (truthy processor && truthy input)
    (_ ← deref processor ;
     call ProcessorDisconnect ;;
     modify (set_scriptProcessorRef None)) ;;
  (* Stop Playing Audio *)
  srcs ← gets sourcesRef ;
  calls (SourceStop <$> srcs) ;;
  modify (set_sourcesRef []) ;;
  (* Close Contexts *)
  match input with
  | Some ctx => ctx' ← closeContext ctx ; modify (set_inputContextRef (Some ctx'))
  | None => mret tt
  end ;;
  output ← gets outputContextRef ;
  match output with
  | Some ctx => ctx' ← closeContext ctx ; modify (set_outputContextRef (Some ctx'))
  | None => mret tt
  end ;;
  modify (setStatus disconnected) ;;
  modify (setCurrentStep setup) ;;
  modify (setAudioMode idle) ;;
  modify (set_currentInputTransRef "") ;;
  modify (set_currentOutputTransRef "").

(** *** The event loop

    One event is handled at a time.  An [ended] event is delivered once, to
    a node that was started; a timeout fires only while one is pending.  An
    exception leaves the handler (a rejected promise or an error report)
    and the loop goes on with the state reached. *)
Definition dispatch (ev : Event) : M unit :=
  match ev with
  | SelectScenario sc =>
      modify (setSelectedScenario (Some sc)) ;; modify (setCustomScenario "")
  | TypeCustomScenario txt =>
      modify (setCustomScenario txt) ;; modify (setSelectedScenario None)
  | SelectMode mode => modify (setLearningMode mode)
  | ClickStart env => startSession env
  | ClickEnd => endSession
  | OnOpen => onopen
  | OnMessage message currentTime now => handleLiveMessage message currentTime now
  | OnClose => onclose
  | OnError => onerror
  | Ended h =>
      pending ← gets pendingEnded ;
      when (bool_decide (h ∈ pending))
        (modify (fun s => set_pendingEnded (Set_delete h s.(pendingEnded)) s) ;;
         onended h)
  | Timeout =>
      n ← gets timers ;
      match n with
      | O => mret tt
      | S n' => modify (set_timers n') ;; ontimeout
      end
  end.

Definition step (s : State) (ev : Event) : State := exec (dispatch ev) s.

Definition run (s : State) (evs : list Event) : State := foldl step s evs.

(** *** The handler cut at its [await]

    Should the decoder's promise settle late, other handlers run between
    the two halves of [handleLiveMessage].  A slice is a whole event, or the
    half of a message handler before the [await], or the half after it,
    resumed with the decoded buffer. *)
Inductive Slice : Type :=
| Whole (ev : Event)
| Arrive (message : LiveServerMessage) (currentTime : Time)
| Resume (message : LiveServerMessage) (audioBuffer : AudioBuffer) (now : N).

Definition arrive (message : LiveServerMessage) (currentTime : Time) : M unit :=
  output ← gets outputContextRef ;
  when (nonempty (default "" (optional_audio message.(serverContent))) && truthy output)
    (beginAudio currentTime).

Definition resume (message : LiveServerMessage) (audioBuffer : AudioBuffer) (now : N)
    : M unit :=
  resumeAudio audioBuffer ;;
  transcripts message now.

Definition slice_step (s : State) (sl : Slice) : State :=
  match sl with
  | Whole ev => step s ev
  | Arrive message currentTime => exec (arrive message currentTime) s
  | Resume message audioBuffer now => exec (resume message audioBuffer now) s
  end.

Definition run_slices (s : State) (sls : list Slice) : State := foldl slice_step s sls.

End Session.

(** The component as mounted: nothing selected, nothing allocated. *)
Definition initial : State :=
  mkState setup None "" FREE_TALK disconnected [] idle
          None None None 0%Q [] None None "" "" 0 [] 0 [].

(** ** Observations on a state *)

(** One scheduled chunk: the node, its start time and its duration. *)
Record Chunk : Type := mkChunk {
  chunk_node : Handle;
  startTime : Time;
  chunk_duration : Time
}.

Definition chunk_of (e : Effect) : option Chunk :=
  match e with
  | SourceStart h when d => Some (mkChunk h when d)
  | _ => None
  end.

(** The [source.start] calls made so far, oldest first. *)
Definition scheduled (s : State) : list Chunk := omap chunk_of s.(effects).


(** Where the code takes a chunk to end: the sum of its start and its
    duration as the code computes it, in doubles. *)
Definition chunk_end (c : Chunk) : Time := Number_add c.(startTime) c.(chunk_duration).


Definition is_ClickStart (ev : Event) : bool :=
  match ev with ClickStart _ => true | _ => false end.

(** The events of one session: nobody presses Start again. *)
Definition one_session (evs : list Event) : Prop :=
  Forall (fun ev => is_ClickStart ev = false) evs.



(** How many partial messages of a speaker the log holds. *)
Definition partial_count (r : Role) (log : list ChatMessage) : nat :=
  length (filter (fun m => m.(role) = r /\ is_true m.(isPartial) = true) log).

(** [startSession] gets past its two checks. *)
Definition ready (env : Env) (s : State) : bool :=
  truthy env.(API_KEY) && nonempty (default "" env.(API_KEY)) &&
  (nonempty (trim s.(customScenario)) || truthy s.(selectedScenario)).

(** A call of [appendPartial], as data. *)
Record Fragment : Type := mkFragment {
  speaker : Role;
  fragment_text : option string;
  arrival : N
}.

Definition appendPartials (calls : list Fragment) (s : State) : State :=
  foldl (fun s c => exec (appendPartial c.(speaker) c.(fragment_text) c.(arrival)) s) s calls.

(** The component state without the trace of calls. *)
Definition forget_trace (s : State) : State := set_effects [] s.

(** A message that carries one inline audio payload and nothing else, and
    messages that carry one transcription fragment or the turn marker. *)
Definition audio_message (base64Audio : string) : LiveServerMessage :=
  mkLiveServerMessage (Some (mkServerContent
    (Some (mkContent (Some [mkPart (Some (mkBlob (Some base64Audio)))])))
    None None None)).

Definition input_message (txt : string) : LiveServerMessage :=
  mkLiveServerMessage (Some (mkServerContent
    None (Some (mkTranscription (Some txt))) None None)).

Definition output_message (txt : string) : LiveServerMessage :=
  mkLiveServerMessage (Some (mkServerContent
    None None (Some (mkTranscription (Some txt))) None)).

Definition turn_complete_message : LiveServerMessage :=
  mkLiveServerMessage (Some (mkServerContent None None None (Some true))).

(** ** Relations between the state before and after a handler *)

(** Every run of [c] takes a state to one that is [R]-related to it,
    whether [c] returns or throws. *)
Definition grows (R : relation State) {A : Type} (c : M A) : Prop :=
  forall s : State, R s (exec c s).

(** The log never gets shorter. *)
Definition log_grows : relation State :=
  fun s s' => length s.(messages) <= length s'.(messages).

(** Every final message of the log is still there, at its index. *)
Definition keeps_final : relation State := fun s s' =>
  forall (i : nat) (m : ChatMessage),
    s.(messages) !! i = Some m -> is_true m.(isPartial) = false ->
    s'.(messages) !! i = Some m.

(** Chunks that follow one another without overlap, none starting before
    [t]. *)
Fixpoint chain (t : Time) (cs : list Chunk) : Prop :=
  match cs with
  | [] => True
  | c :: cs' => (t <= c.(startTime))%Q /\ chain (chunk_end c) cs'
  end.

(** Where playback stands after [cs]: the end of the last chunk, or [t]
    when there is none. *)
Definition cursor (t : Time) (cs : list Chunk) : Time :=
  match last cs with
  | Some c => chunk_end c
  | None => t
  end.

(** From [s] to [s'] chunks were only added to the schedule, back to back
    from [nextStartTime] on, and [nextStartTime] kept up with them. *)
Definition schedule_grows : relation State := fun s s' =>
  exists new : list Chunk,
    scheduled s' = scheduled s ++ new /\
    chain s.(nextStartTimeRef) new /\
    (cursor s.(nextStartTimeRef) new <= s'.(nextStartTimeRef))%Q.

(** Nothing was scheduled and [nextStartTime] is as it was. *)
Definition same_schedule : relation State := fun s s' =>
  scheduled s' = scheduled s /\ s'.(nextStartTimeRef) = s.(nextStartTimeRef).

(** Playback is where it was: nothing was scheduled, [nextStartTime] and
    the count of source nodes are as they were, and there is an output
    context if there was one. *)
Definition same_playback : relation State := fun s s' =>
  scheduled s' = scheduled s /\ s'.(nextStartTimeRef) = s.(nextStartTimeRef) /\
  s'.(nodes) = s.(nodes) /\ truthy s'.(outputContextRef) = truthy s.(outputContextRef).

(** ** AudioCodec (specification section 4.1) *)

Module AudioCodec.

Local Open Scope Q_scope.

(** A byte is an integer in 0..255. *)
Definition byte : Type := Z.

Record AudioChunk : Type := mkAudioChunk {
  samples : list Q;
  chunk_rate : Z;
  channels : Z
}.

(** Modelled from the spec: [clamp(s,-1,1)] of [encode]; the codec of
    [utils/audioUtils] is missing from the sources. *)
Definition clamp (x : Q) : Q :=
  if Qle_bool x (-1) then -1 else if Qle_bool 1 x then 1 else x.

(** Modelled from the spec: "rounds toward nearest" of [encode]; a tie goes
    up, as [Math.round] does. *)
Definition round (x : Q) : Z := Qfloor (x + (1 # 2)).

(** Modelled from the spec: the 16-bit integer of a sample in [encode],
    [clamp(s,-1,1) * 32767] rounded. *)
Definition quantize (x : Q) : Z := round (clamp x * 32767).

(** Modelled from the spec: a 16-bit signed integer in little-endian byte
    order (two's complement), as [encode] lays it out. *)
Definition int16_bytes (k : Z) : list byte :=
  [Z.land k 255; Z.land (Z.shiftr k 8) 255].

(** Modelled from the spec: [encode(samples, sampleRate) -> bytes]; the
    rate only tags the transport frame. *)
Definition encode (samples : list Q) (sampleRate : Z) : list byte :=
  flat_map (fun x => int16_bytes (quantize x)) samples.

(** Modelled from the spec: a byte pair read as a little-endian 16-bit
    signed integer, in [bytesToAudioBuffer]. *)
Definition int16_of_bytes (lo hi : byte) : Z :=
  let u := Z.lor lo (Z.shiftl hi 8) in
  if (u <? 32768)%Z then u else (u - 65536)%Z.

(** Modelled from the spec: the samples of [bytesToAudioBuffer], each
    integer divided by 32768; [None] is [MalformedAudioError] (odd length). *)
Fixpoint samples_of_bytes (bytes : list byte) : option (list Q) :=
  match bytes with
  | [] => Some []
  | lo :: hi :: rest =>
      option_map (cons (inject_Z (int16_of_bytes lo hi) / 32768)) (samples_of_bytes rest)
  | [_] => None
  end.

(** Modelled from the spec: [bytesToAudioBuffer(bytes, sampleRate, channels)
    -> AudioChunk], with the channel count fixed at 1. *)
Definition bytesToAudioBuffer (bytes : list byte) (sampleRate : Z) : option AudioChunk :=
  option_map (fun xs => mkAudioChunk xs sampleRate 1) (samples_of_bytes bytes).

(** [decode(encode(s))] gives back as many samples as [s] has, each within
    [bound] of the original, for every [s] with values in [-1,1]. *)
Definition roundtrip_within (bound : Q) : Prop :=
  forall (s : list Q) (rate : Z),
    Forall (fun x => -1 <= x /\ x <= 1) s ->
    exists chunk : AudioChunk,
      bytesToAudioBuffer (encode s rate) rate = Some chunk /\
      Forall2 (fun x y => Qabs (y - x) <= bound) s chunk.(samples).

End AudioCodec.

(** ** The schedule of the specification (section 4.2)

    Follows the specification: [schedule(chunk)] takes
    [startAt = max(nextStartTime, audioClockNow)], begins playback there
    and sets [nextStartTime = startAt + duration(chunk)], chunk after chunk
    in the order of arrival.  Here [t] is [nextStartTime] and [h] counts
    the source nodes; the sum is the one of the code, in doubles, and a
    payload that fails to decode (which the specification leaves open)
    does what the code does with it, raising [nextStartTime] only. *)
Definition schedule_message (decodeAudio : string -> option AudioBuffer) (t : Time)
    (h : Handle) (ev : Event) : Time * Handle * list Chunk :=
  match ev with
  | OnMessage message currentTime _ =>
      match optional_audio message.(serverContent) with
      | Some base64Audio =>
          if nonempty base64Audio then
            let startAt := Math_max t currentTime in
            match decodeAudio base64Audio with
            | Some audioBuffer =>
                (Number_add startAt audioBuffer.(duration), S h,
                 [mkChunk h startAt audioBuffer.(duration)])
            | None => (startAt, h, [])
            end
          else (t, h, [])
      | None => (t, h, [])
      end
  | _ => (t, h, [])
  end.

Fixpoint playlist (decodeAudio : string -> option AudioBuffer) (t : Time) (h : Handle)
    (evs : list Event) : list Chunk :=
  match evs with
  | [] => []
  | ev :: evs' =>
      let '(t', h', cs) := schedule_message decodeAudio t h ev in
      cs ++ playlist decodeAudio t' h' evs'
  end.

(** An event that carries no audio payload and is not a new start. *)
Definition silent (ev : Event) : bool :=
  match ev with
  | OnMessage message _ _ =>
      negb (nonempty (default "" (optional_audio message.(serverContent))))
  | ClickStart _ => false
  | _ => true
  end.

(** ** Statements and sample data used below *)



(** A payload that fails to decode changes neither the lifecycle status,
    nor the transcript log, nor the playback state ([nextStartTime] and the
    live handles). *)
Definition decode_failure_changes_nothing (decodeAudio : string -> option AudioBuffer)
    : Prop :=
  forall (s : State) (b : string) (currentTime : Time) (now : N),
    nonempty b = true -> truthy s.(outputContextRef) = true -> decodeAudio b = None ->
    let s' := step decodeAudio s (OnMessage (audio_message b) currentTime now) in
    s'.(status) = s.(status) /\ s'.(messages) = s.(messages) /\
    (s'.(nextStartTimeRef) == s.(nextStartTimeRef))%Q /\ s'.(sourcesRef) = s.(sourcesRef).

(** A decoder for the sample runs: text outside the base64 alphabet is
    rejected; four characters carry three bytes, two bytes one sample of
    mono PCM at the output rate; the duration is the number of samples
    divided by the rate, a double. *)
Definition is_base64_char (c : ascii) : bool :=
  let n := nat_of_ascii c in
  ((65 <=? n) && (n <=? 90) || (97 <=? n) && (n <=? 122) || (48 <=? n) && (n <=? 57) ||
   (n =? 43) || (n =? 47) || (n =? 61))%nat.

Definition sample_duration (base64Audio : string) : Time :=
  double (inject_Z (Z.of_nat (String.length base64Audio * 3 / 4 / 2))
          / inject_Z OUTPUT_SAMPLE_RATE).

Definition sample_decoder (base64Audio : string) : option AudioBuffer :=
  if forallb is_base64_char (list_ascii_of_string base64Audio)
  then Some (mkAudioBuffer (sample_duration base64Audio))
  else None.

Definition sample_env : Env := mkEnv (Some "key") true (Some (mkMediaStream 1)).

(** A session that is open: a topic was typed, Start was pressed and the
    transport reported [onopen]. *)
Definition open_session : State :=
  run sample_decoder initial
    [TypeCustomScenario "Job Interview"; ClickStart sample_env; OnOpen].

(** ** Further observations on the component *)

(** App.tsx 59: the scenario [startSession] settles on. *)
Definition finalScenario (s : State) : option Scenario :=
  if nonempty (trim s.(customScenario))
  then Some (mkScenario "custom" "Custom Topic" s.(customScenario) "‚ú®")
  else s.(selectedScenario).

(** App.tsx 381: the [disabled] attribute of the Start button. *)
Definition startDisabled (s : State) : bool :=
  negb (truthy s.(selectedScenario)) && negb (nonempty s.(customScenario)).

(** A scenario is selected or custom text is typed, never both. *)
Definition exclusive_choice (s : State) : Prop :=
  s.(selectedScenario) = None \/ s.(customScenario) = "".

(** The choice made on the setup screen is as it was. *)
Definition keeps_choice : relation State := fun s s' =>
  s'.(selectedScenario) = s.(selectedScenario) /\
  s'.(customScenario) = s.(customScenario).

(** The nodes [source.start] was called on. *)
Definition started_nodes (s : State) : list Handle := chunk_node <$> scheduled s.

(** Every node in the live set was started. *)
Definition live_started (s : State) : Prop :=
  Forall (fun h => h ∈ started_nodes s) s.(sourcesRef).

Definition keeps_live_started : relation State := fun s s' =>
  live_started s -> live_started s'.

(** [nextStartTime], a double, did not move back and is a double still. *)
Definition never_rewinds : relation State := fun s s' =>
  is_double s.(nextStartTimeRef) ->
  (s.(nextStartTimeRef) <= s'.(nextStartTimeRef))%Q /\ is_double s'.(nextStartTimeRef).

(** The clock reading an event carries is a double. *)
Definition double_clock (ev : Event) : Prop :=
  match ev with
  | OnMessage _ currentTime _ => is_double currentTime
  | _ => True
  end.

(** A handler made no call and left the connection and playback as they
    were; the audio indicator is as it was, or [listening]. *)
Definition only_transcribes : relation State := fun s s' =>
  s'.(effects) = s.(effects) /\ s'.(status) = s.(status) /\
  s'.(nextStartTimeRef) = s.(nextStartTimeRef) /\ s'.(sourcesRef) = s.(sourcesRef) /\
  s'.(nodes) = s.(nodes) /\ s'.(pendingEnded) = s.(pendingEnded) /\
  s'.(timers) = s.(timers) /\
  (s'.(audioMode) = s.(audioMode) \/ s'.(audioMode) = listening).

(** The status is [connected] afterwards only if it was before. *)
Definition connects_not : relation State := fun s s' =>
  s'.(status) = connected -> s.(status) = connected.

(** The text a run of fragments adds up to. *)
Definition accumulated (buffer : string) (calls : list Fragment) : string :=
  foldl (fun acc c => concat_fragment acc c.(fragment_text)) buffer calls.

(** The last message of the log is not a partial message of [r]. *)
Definition tail_free (r : Role) (log : list ChatMessage) : Prop :=
  match last log with
  | Some m => m.(role) <> r \/ is_true m.(isPartial) = false
  | None => True
  end.

(** App.tsx 13-18: the scenarios offered on the setup screen, with their
    texts as the file has them. *)
Definition PREDEFINED_SCENARIOS : list Scenario :=
  [mkScenario "coffee" "Ordering Coffee"
     "ÁÇπÂíñÂï° / Caf√© Order" "‚òï";
   mkScenario "airport" "At the Airport"
     "Êú∫Âú∫ÂÄºÊú∫ / Check-in" "‚úàÔ∏è";
   mkScenario "intro" "Self Introduction"
     "Ëá™Êàë‰ªãÁªç / Meet & Greet" "üëã";
   mkScenario "shopping" "Shopping"
     "Ë¥≠Áâ©Á†ç‰ª∑ / Buying Clothes" "üõçÔ∏è"].

(** App.tsx 350: whether the card of [sc] is drawn as the chosen one. *)
Definition highlighted (s : State) (sc : Scenario) : bool :=
  match s.(selectedScenario) with
  | Some selected => String.eqb selected.(scenario_id) sc.(scenario_id)
  | None => false
  end && negb (nonempty s.(customScenario)).

(** App.tsx 398: the heading of the session screen,
    [customScenario || selectedScenario?.title]. *)
Definition heading (s : State) : option string :=
  if nonempty s.(customScenario) then Some s.(customScenario)
  else title <$> s.(selectedScenario).

(** * Properties *)

(** ** The message log *)

Ltac run_handler :=
  unfold exec, appendPartial, commit, setMessages, when, modify, gets, call, calls,
    mbind, mret, M_bind, M_ret; simpl.

(** The updater either appends one message or rewrites the last one, and it
    rewrites only a partial message of the same speaker. *)
Lemma updateLastMessage_cases (r : Role) (txt : string) (partial : bool) (now : N)
    (prev : list ChatMessage) :
  updateLastMessage r txt partial now prev
    = prev ++ [mkChatMessage (toString now) r txt (Some partial) None]
  \/ exists (init : list ChatMessage) (lastMsg : ChatMessage),
       prev = init ++ [lastMsg] /\ lastMsg.(role) = r /\
       is_true lastMsg.(isPartial) = true /\
       updateLastMessage r txt partial now prev
         = init ++ [mkChatMessage lastMsg.(id) r txt (Some partial) lastMsg.(correction)].
Proof.
  unfold updateLastMessage.
  destruct (last prev) as [lastMsg|] eqn:Hlast; [|by left].
  destruct (bool_decide (role lastMsg = r)) eqn:Hrole; simpl; [|by left].
  destruct (is_true (isPartial lastMsg)) eqn:Hpartial; simpl; [|by left].
  right. apply last_Some in Hlast as [init ->].
  apply bool_decide_eq_true in Hrole.
  exists init, lastMsg. repeat split; try done.
  rewrite length_app. simpl.
  replace (length init + 1 - 1) with (length init) by lia.
  rewrite take_app_length. by rewrite Hrole.
Qed.

(** A message of the other speaker, or a final one, keeps its place and
    its content. *)
Lemma updateLastMessage_lookup (r : Role) (txt : string) (partial : bool) (now : N)
    (prev : list ChatMessage) (i : nat) (m : ChatMessage) :
  prev !! i = Some m ->
  m.(role) <> r \/ is_true m.(isPartial) = false ->
  updateLastMessage r txt partial now prev !! i = Some m.
Proof.
  intros Hi Hm.
  destruct (updateLastMessage_cases r txt partial now prev)
    as [-> | (init & lastMsg & -> & Hrole & Hpartial & ->)].
  - by apply lookup_app_l_Some.
  - destruct (decide (i < length init)) as [Hlt | Hge].
    + rewrite lookup_app_l in Hi by done. by apply lookup_app_l_Some.
    + rewrite lookup_app_r in Hi by lia.
      destruct (i - length init) as [|k] eqn:Hk; simpl in Hi; [|done].
      injection Hi as <-. destruct Hm as [Hm | Hm]; [done | congruence].
Qed.

Lemma updateLastMessage_length (r : Role) (txt : string) (partial : bool) (now : N)
    (prev : list ChatMessage) :
  length prev <= length (updateLastMessage r txt partial now prev).
Proof.
  destruct (updateLastMessage_cases r txt partial now prev)
    as [-> | (init & lastMsg & -> & _ & _ & ->)]; rewrite !length_app; simpl; lia.
Qed.

Lemma appendPartial_messages (r : Role) (fragment : option string) (now : N) (s : State) :
  (exec (appendPartial r fragment now) s).(messages)
    = updateLastMessage r (concat_fragment (buffer r s) fragment) true now s.(messages).
Proof. destruct r; reflexivity. Qed.

Lemma appendPartial_lookup (r : Role) (fragment : option string) (now : N) (s : State)
    (i : nat) (m : ChatMessage) :
  s.(messages) !! i = Some m ->
  m.(role) <> r \/ is_true m.(isPartial) = false ->
  (exec (appendPartial r fragment now) s).(messages) !! i = Some m.
Proof. rewrite appendPartial_messages. apply updateLastMessage_lookup. Qed.

(** C9. Interleaved fragments respect the speakers: through any sequence
    of [appendPartial] calls, a message that is final, or that belongs to a
    speaker none of the calls is for, stays at its index with its content.
    So a fragment is never merged into the other speaker's message, and
    committed messages are neither reordered nor modified. *)
Theorem appendPartials_preserve (calls : list Fragment) (s : State) (i : nat)
    (m : ChatMessage) :
  s.(messages) !! i = Some m ->
  is_true m.(isPartial) = false \/ Forall (fun c => c.(speaker) <> m.(role)) calls ->
  (appendPartials calls s).(messages) !! i = Some m.
Proof.
  revert s. induction calls as [|c calls IH]; intros s Hi Hm; [done|].
  unfold appendPartials. simpl. apply IH.
  - apply appendPartial_lookup; [done|].
    destruct Hm as [Hm | Hm]; [by right|].
    left. apply Forall_cons in Hm as [Hc _]. congruence.
  - destruct Hm as [Hm | Hm]; [by left|].
    right. by apply Forall_cons in Hm as [_ Hm].
Qed.

Lemma appendPartials_preserve_witness :
  let s := run sample_decoder open_session [OnMessage (input_message "Hi") 0%Q 1%N] in
  let m := mkChatMessage "1" user "Hi" (Some true) None in
  let calls := [mkFragment model (Some "Hel") 2%N; mkFragment model (Some "lo") 3%N] in
  s.(messages) !! 0%nat = Some m /\
  Forall (fun c => c.(speaker) <> m.(role)) calls /\
  (appendPartials calls s).(messages) !! 0%nat = Some m.
Proof.
  intros s m calls.
  assert (Hm : s.(messages) !! 0%nat = Some m) by reflexivity.
  assert (Hcalls : Forall (fun c => c.(speaker) <> m.(role)) calls)
    by (repeat constructor; discriminate).
  exact (conj Hm (conj Hcalls
           (appendPartials_preserve calls s 0 m Hm (or_intror Hcalls)))).
Defined.

Lemma commit_spec (r : Role) (now : N) (s : State) :
  commit r now s =
    (Normal tt,
     if nonempty (buffer r s)
     then set_buffer r "" (putMessages (updateLastMessage r (buffer r s) false now
                                          s.(messages)) s)
     else s).
Proof. unfold commit. run_handler. by destruct (nonempty (buffer r s)). Qed.

Lemma buffer_set_buffer (r : Role) (v : string) (s : State) :
  buffer r (set_buffer r v s) = v.
Proof. by destruct r. Qed.

(** C8. [commit] is idempotent: a second commit for the same speaker, right
    after the first, returns normally and leaves the whole state (message
    log and buffers included) as the first commit left it. *)
Theorem commit_idempotent (r : Role) (now now' : N) (s : State) :
  (commit r now ;; commit r now') s = commit r now s.
Proof.
  unfold mbind, M_bind. rewrite (commit_spec r now s), commit_spec.
  destruct (nonempty (buffer r s)) eqn:Hbuf.
  - by rewrite buffer_set_buffer.
  - by rewrite Hbuf.
Qed.

(** The scenario of the specification: "He", "llo", then the turn marker
    give one final message with the text "Hello". *)
Example hello_scenario :
  (run sample_decoder open_session
     [OnMessage (input_message "He") 0%Q 1%N;
      OnMessage (input_message "llo") 0%Q 2%N;
      OnMessage turn_complete_message 0%Q 3%N]).(messages)
  = [mkChatMessage "1" user "Hello" (Some false) None].
Proof. reflexivity. Qed.

(** C2. The log does not keep to "at most one partial message per speaker,
    committed in place".  When the user's text and then the tutor's text
    arrive before the turn marker, the commit of the user's text finds the
    tutor's partial message last and appends a copy, and the commit of the
    tutor's text then finds that copy last and appends again: both partial
    messages stay in the log, still marked partial.  And when the user
    speaks again while the tutor's partial message is last, a second
    partial message of the user is appended. *)
Theorem turn_complete_duplicates (decodeAudio : string -> option AudioBuffer) :
  (run decodeAudio open_session
     [OnMessage (input_message "Hi") 0%Q 1%N;
      OnMessage (output_message "Hello") 0%Q 2%N;
      OnMessage turn_complete_message 0%Q 3%N]).(messages)
  = [mkChatMessage "1" user "Hi" (Some true) None;
     mkChatMessage "2" model "Hello" (Some true) None;
     mkChatMessage "3" user "Hi" (Some false) None;
     mkChatMessage "3" model "Hello" (Some false) None] /\
  partial_count user
    (run decodeAudio open_session
       [OnMessage (input_message "Hi") 0%Q 1%N;
        OnMessage (output_message "Hello") 0%Q 2%N;
        OnMessage (input_message " there") 0%Q 3%N]).(messages) = 2%nat.
Proof. split; reflexivity. Qed.

(** ** Relating the state before and after a handler *)

Section Grows.

Context (R : relation State) `{!PreOrder R}.

Lemma grows_ret {A : Type} (a : A) : grows R (mret a).
Proof. intros s. reflexivity. Qed.

Lemma grows_throw {A : Type} (e : Exn) : grows R (mthrow (A:=A) e).
Proof. intros s. reflexivity. Qed.

Lemma grows_gets {A : Type} (f : State -> A) : grows R (gets f).
Proof. intros s. reflexivity. Qed.

Lemma grows_modify (f : State -> State) : (forall s, R s (f s)) -> grows R (modify f).
Proof. intros Hf s. apply Hf. Qed.

Lemma grows_bind {A B : Type} (c : M A) (k : A -> M B) :
  grows R c -> (forall a, grows R (k a)) -> grows R (c ≫= k).
Proof.
  intros Hc Hk s. specialize (Hc s). unfold exec, mbind, M_bind in *.
  destruct (c s) as [[a|e] s1]; simpl in *; [|done].
  etransitivity; [exact Hc | apply Hk].
Qed.

Lemma grows_when (b : bool) (c : M unit) : grows R c -> grows R (when b c).
Proof. intros Hc. destruct b; [done | apply grows_ret]. Qed.

Lemma grows_deref {A : Type} (r : option A) : grows R (deref r).
Proof. destruct r; [apply grows_ret | apply grows_throw]. Qed.

Lemma grows_try_catch {A : Type} (c : M A) (handler : Exn -> M A) :
  grows R c -> (forall e, grows R (handler e)) -> grows R (try_catch c handler).
Proof.
  intros Hc Hh s. specialize (Hc s). unfold exec, try_catch in *.
  destruct (c s) as [[a|e] s1]; simpl in *; [done|].
  etransitivity; [exact Hc | apply Hh].
Qed.

End Grows.

Ltac grows_step :=
  lazymatch goal with
  | |- grows _ (mbind _ _) => refine (grows_bind _ _ _ _ _); [| intros ?]
  | |- grows _ (when _ _) => refine (grows_when _ _ _ _)
  | |- grows _ (mret _) => refine (grows_ret _ _)
  | |- grows _ (mthrow _) => refine (grows_throw _ _)
  | |- grows _ (gets _) => refine (grows_gets _ _)
  | |- grows _ (deref _) => refine (grows_deref _ _)
  | |- grows _ (try_catch _ _) => refine (grows_try_catch _ _ _ _ _); [| intros ?]
  | |- grows _ (modify _) => refine (grows_modify _ _ _); intros ?
  | |- grows _ (match ?x with _ => _ end) => destruct x
  end.

(** Walk through a handler; [leaf] closes the calls it knows. *)
Ltac grows_with leaf := repeat first [ leaf | grows_step ].

(** ** Teardown *)

#[local] Instance log_grows_preorder : PreOrder log_grows.
Proof. split; [intros s | intros s1 s2 s3]; unfold log_grows; lia. Qed.

Lemma endSession_messages (s : State) : (exec endSession s).(messages) = s.(messages).
Proof.
  destruct s as [? ? ? ? ? ? ? [?|] [?|] [?|] ? ? [?|] [?|] ? ? ? ? ? ?];
    vm_compute; reflexivity.
Qed.

(** C3. [endSession] is total and idempotent: from every state (the one of
    a component that never started a session included) it returns normally
    with status [disconnected], no live playback handle and both transcript
    buffers empty; called again at once it returns normally again and
    changes nothing of the component's state; on the freshly mounted
    component it changes nothing at all. *)
Theorem endSession_total_idempotent (s : State) :
  exists s1 s2 : State,
    endSession s = (Normal tt, s1) /\
    endSession s1 = (Normal tt, s2) /\
    (s1.(status) = disconnected /\ s1.(sourcesRef) = [] /\
     s1.(currentInputTransRef) = "" /\ s1.(currentOutputTransRef) = "") /\
    (s2.(status) = disconnected /\ s2.(sourcesRef) = [] /\
     s2.(currentInputTransRef) = "" /\ s2.(currentOutputTransRef) = "") /\
    forget_trace s2 = forget_trace s1 /\
    endSession initial = (Normal tt, initial).
Proof.
  exists (exec endSession s), (exec endSession (exec endSession s)).
  destruct s as [? ? ? ? ? ? ? [?|] [?|] [?|] ? ? [?|] [?|] ? ? ? ? ? ?];
    repeat match goal with |- _ /\ _ => split end; vm_compute; reflexivity.
Qed.

Lemma appendPartial_log_grows (r : Role) (fragment : option string) (now : N) :
  grows log_grows (appendPartial r fragment now).
Proof.
  intros s. unfold log_grows. rewrite appendPartial_messages.
  apply updateLastMessage_length.
Qed.

Lemma commit_log_grows (r : Role) (now : N) : grows log_grows (commit r now).
Proof.
  intros s. unfold log_grows, exec. rewrite commit_spec.
  destruct (nonempty (buffer r s)); simpl; [|lia].
  destruct r; simpl; apply updateLastMessage_length.
Qed.

Ltac log_grows_leaf :=
  idtac;
  lazymatch goal with
  | |- grows _ (appendPartial _ _ _) => apply appendPartial_log_grows
  | |- grows _ (commit _ _) => apply commit_log_grows
  | |- grows _ endSession =>
      intros ?; unfold log_grows; rewrite endSession_messages; lia
  end.

Lemma dispatch_log_grows (decodeAudio : string -> option AudioBuffer) (ev : Event) :
  is_ClickStart ev = false -> grows log_grows (dispatch decodeAudio ev).
Proof.
  destruct ev; intros Hev; try discriminate; unfold dispatch;
    unfold onopen, setupAudioInput, handleLiveMessage, transcripts, scheduleAudio,
      beginAudio, resumeAudio, onclose, onerror,
      onended, ontimeout, call, calls;
    grows_with log_grows_leaf;
    unfold log_grows; simpl; lia.
Qed.

#[local] Instance keeps_final_preorder : PreOrder keeps_final.
Proof.
  split.
  - by intros s i m.
  - intros s1 s2 s3 H12 H23 i m Hi Hm. apply H23; [|done]. by apply H12.
Qed.

Ltac keeps_final_leaf :=
  idtac;
  lazymatch goal with
  | |- grows _ (appendPartial _ _ _) =>
      intros ? ? ? ? ?; apply appendPartial_lookup; [done | by right]
  | |- grows _ (commit ?r _) =>
      let s' := fresh "s" in
      intros s' ? ? ? ?; unfold exec; rewrite commit_spec;
      destruct (nonempty (buffer r s')); [|done];
      simpl; apply updateLastMessage_lookup; [done | by right]
  | |- grows _ endSession => intros ? ? ? ? ?; by rewrite endSession_messages
  | |- grows _ (modify _) => by intros ? ? ? ? ?
  end.

(** Committed messages stay where they are, with their content, through
    every event of a session. *)
Lemma run_keeps_final (decodeAudio : string -> option AudioBuffer) (evs : list Event)
    (s : State) :
  one_session evs -> keeps_final s (run decodeAudio s evs).
Proof.
  revert s. induction evs as [|ev evs IH]; intros s Hevs; [reflexivity|].
  apply Forall_cons in Hevs as [Hev Hevs]. simpl.
  transitivity (step decodeAudio s ev); [|by apply IH].
  assert (Hgrows : grows keeps_final (dispatch decodeAudio ev)); [|apply Hgrows].
  destruct ev; try discriminate; unfold dispatch;
    unfold onopen, setupAudioInput, handleLiveMessage, transcripts, scheduleAudio,
      beginAudio, resumeAudio, onclose, onerror, onended, ontimeout, call, calls;
    grows_with keeps_final_leaf.
Qed.

Lemma startSession_messages (env : Env) (s : State) :
  (exec (startSession env) s).(messages) = if ready env s then [] else s.(messages).
Proof.
  unfold exec, startSession, ready.
  destruct env as [[[|c k]|] available [stream|]]; simpl; try reflexivity;
    unfold mbind, M_bind, gets; simpl;
    destruct (nonempty (trim (customScenario s))); simpl;
    destruct (selectedScenario s); simpl; try reflexivity;
    destruct available; reflexivity.
Qed.

(** C10. [endSession] leaves the message log as it is, and only a start
    empties it: after [endSession] the log is the same list; a press on
    Start that gets past the checks of [startSession] sets it to the empty
    list and one that does not leaves it alone; every other event leaves a
    log at least as long as it found it. *)
Theorem endSession_keeps_log (decodeAudio : string -> option AudioBuffer) (s : State)
    (ev : Event) :
  (exec endSession s).(messages) = s.(messages) /\
  match ev with
  | ClickStart env =>
      (step decodeAudio s ev).(messages) = if ready env s then [] else s.(messages)
  | _ => length s.(messages) <= length (step decodeAudio s ev).(messages)
  end.
Proof.
  split; [apply endSession_messages|].
  destruct ev; try (by apply (dispatch_log_grows decodeAudio)).
  apply startSession_messages.
Qed.

(** A topic of white space only, here an ideographic space (U+3000), does
    not get past the check: Start raises the alert and the log stays. *)
Example blank_topic_keeps_log :
  let s := run sample_decoder open_session
             [OnMessage (input_message "Hi") 0%Q 1%N; ClickEnd; TypeCustomScenario "　"] in
  ready sample_env s = false /\
  (step sample_decoder s (ClickStart sample_env)).(messages) = s.(messages) /\
  s.(messages) = [mkChatMessage "1" user "Hi" (Some true) None] /\
  (step sample_decoder s (ClickStart sample_env)).(status) = disconnected.
Proof.
  intros s. repeat match goal with |- _ /\ _ => split end; vm_compute; reflexivity.
Qed.

(** C7. [startSession] without a credential, or with neither a selected
    scenario nor custom text (blank text counts as none), stops at its
    check: it returns at once, the only thing it does is raise an alert,
    and every cell of the component (the lifecycle status among them) is as
    before, so no audio context, microphone stream or connection exists
    that did not exist before. *)
Theorem startSession_precondition (env : Env) (s : State) :
  (env.(API_KEY) = None \/ env.(API_KEY) = Some "") \/
  (trim s.(customScenario) = "" /\ s.(selectedScenario) = None) ->
  exists msg : string,
    startSession env s = (Normal tt, set_effects (s.(effects) ++ [Alert msg]) s).
Proof.
  intros Hpre. unfold startSession.
  destruct (negb (truthy (API_KEY env) && nonempty (default "" (API_KEY env)))) eqn:Hkey.
  - by eexists.
  - destruct Hpre as [[Hnone | Hempty] | [Hcustom Hselected]].
    + by rewrite Hnone in Hkey.
    + by rewrite Hempty in Hkey.
    + unfold mbind, M_bind, gets. simpl. rewrite Hcustom, Hselected. simpl. by eexists.
Qed.

Lemma startSession_precondition_witness :
  let s := run sample_decoder initial [TypeCustomScenario "   "] in
  (trim s.(customScenario) = "" /\ s.(selectedScenario) = None) /\
  exists msg : string,
    startSession sample_env s = (Normal tt, set_effects (s.(effects) ++ [Alert msg]) s).
Proof.
  intros s.
  assert (Hpre : trim s.(customScenario) = "" /\ s.(selectedScenario) = None)
    by (split; reflexivity).
  exact (conj Hpre (startSession_precondition sample_env s (or_intror Hpre))).
Defined.

(** ** Numbers *)

Section Numbers.

Local Open Scope Q_scope.

Lemma pow2_pos (e : Z) : 0 < 2 ^ e.
Proof. by apply Qpower_0_lt. Qed.

Lemma pow2_plus (a b : Z) : 2 ^ (a + b) == 2 ^ a * 2 ^ b.
Proof. by apply Qpower_plus. Qed.

Lemma pow2_inject (n : Z) : (0 <= n)%Z -> 2 ^ n == inject_Z (2 ^ n).
Proof. intros Hn. by rewrite Zpower_Qpower. Qed.

Lemma pow2_le (a b : Z) : (a <= b)%Z -> 2 ^ a <= 2 ^ b.
Proof. intros Hab. by apply Qpower_le_compat_l. Qed.

Lemma round_even_floor (x : Q) : (Qfloor x <= round_even x <= Qfloor x + 1)%Z.
Proof.
  unfold round_even. destruct (Qcompare _ _); [destruct (Z.even _)| |]; lia.
Qed.

Lemma round_even_ge (x : Q) (n : Z) : inject_Z n <= x -> (n <= round_even x)%Z.
Proof.
  intros Hn. apply Qfloor_resp_le in Hn. rewrite Qfloor_Z in Hn.
  pose proof (round_even_floor x). lia.
Qed.

Lemma round_even_le (x : Q) (n : Z) : x <= inject_Z n -> (round_even x <= n)%Z.
Proof.
  intros Hn. pose proof (round_even_floor x) as Hround.
  destruct (Z.lt_ge_cases (Qfloor x) n) as [Hlt | Hge]; [lia|].
  assert (Hfloor : Qfloor x = n).
  { apply Qfloor_resp_le in Hn. rewrite Qfloor_Z in Hn. lia. }
  unfold round_even. rewrite Hfloor.
  assert (Hx : x - inject_Z n < 1 # 2).
  { pose proof (Qfloor_le x) as Hle. rewrite Hfloor in Hle. lra. }
  rewrite (proj1 (Qlt_alt _ _) Hx). lia.
Qed.

(** [ilog2 q] is the exponent of the binade of [q]. *)
Lemma ilog2_le (q : Q) : 0 < q -> 2 ^ ilog2 q <= q.
Proof.
  intros Hq. unfold ilog2.
  destruct (Qle_bool _ q) eqn:Htest; [by apply Qle_bool_iff|].
  destruct q as [n d]. simpl.
  assert (Hn : (0 < n)%Z) by (unfold Qlt in Hq; simpl in Hq; lia).
  pose proof (Z.log2_spec n Hn) as [Hlow _].
  pose proof (Z.log2_spec (Zpos d) eq_refl) as [_ Hhigh].
  pose proof (Z.log2_nonneg n). pose proof (Z.log2_nonneg (Zpos d)).
  rewrite (Qmake_Qdiv n d).
  apply Qle_shift_div_l; [reflexivity|].
  apply Qle_trans with (2 ^ (Z.log2 n - Z.log2 (Zpos d) - 1) * 2 ^ (Z.log2 (Zpos d) + 1)).
  - apply Qmult_le_l; [apply pow2_pos|].
    rewrite pow2_inject by lia. rewrite <- Zle_Qle. lia.
  - rewrite <- pow2_plus.
    replace (Z.log2 n - Z.log2 (Z.pos d) - 1 + (Z.log2 (Z.pos d) + 1))%Z
      with (Z.log2 n) by lia.
    rewrite pow2_inject by lia. by rewrite <- Zle_Qle.
Qed.

Lemma ilog2_lt (q : Q) : 0 < q -> q < 2 ^ (ilog2 q + 1).
Proof.
  intros Hq. unfold ilog2.
  destruct (Qle_bool _ q) eqn:Htest.
  - destruct q as [n d]. simpl.
    assert (Hn : (0 < n)%Z) by (unfold Qlt in Hq; simpl in Hq; lia).
    pose proof (Z.log2_spec n Hn) as [_ Hhigh].
    pose proof (Z.log2_spec (Zpos d) eq_refl) as [Hlow _].
    pose proof (Z.log2_nonneg n). pose proof (Z.log2_nonneg (Zpos d)).
    rewrite (Qmake_Qdiv n d).
    apply Qlt_shift_div_r; [reflexivity|].
    apply Qlt_le_trans with (2 ^ (Z.log2 n - Z.log2 (Zpos d) + 1) * 2 ^ Z.log2 (Zpos d)).
    + rewrite <- pow2_plus.
      replace (Z.log2 n - Z.log2 (Z.pos d) + 1 + Z.log2 (Z.pos d))%Z
        with (Z.succ (Z.log2 n)) by lia.
      rewrite pow2_inject by lia. by rewrite <- Zlt_Qlt.
    + apply Qmult_le_l; [apply pow2_pos|].
      rewrite pow2_inject by lia. by rewrite <- Zle_Qle.
  - replace (Z.log2 (Qnum q) - Z.log2 (Z.pos (Qden q)) - 1 + 1)%Z
      with (Z.log2 (Qnum q) - Z.log2 (Z.pos (Qden q)))%Z by lia.
    apply Qnot_le_lt. intros Hle. apply Qle_bool_iff in Hle. congruence.
Qed.

Lemma double_pos_eq (q : Q) :
  double_pos q ==
    inject_Z (round_even (q / 2 ^ Z.max (ilog2 q - 52) (-1074)))
    * 2 ^ Z.max (ilog2 q - 52) (-1074).
Proof. unfold double_pos. apply Qred_correct. Qed.

Lemma scaled_nonneg (q : Q) (e : Z) : 0 < q -> (0 <= round_even (q / 2 ^ e))%Z.
Proof.
  intros Hq. apply round_even_ge. apply Qle_shift_div_l; [apply pow2_pos|].
  rewrite Qmult_0_l. by apply Qlt_le_weak.
Qed.

(** A double with exponent [e] is a multiple of [2^e'] for every [e' <= e]. *)
Lemma on_grid (t : Q) (m e e' : Z) :
  (e' <= e)%Z -> t == inject_Z m * 2 ^ e -> t == inject_Z (m * 2 ^ (e - e')) * 2 ^ e'.
Proof.
  intros He Ht. rewrite Ht, inject_Z_mult, <- pow2_inject by lia.
  rewrite <- Qmult_assoc, <- pow2_plus. by replace (e - e' + e')%Z with e by lia.
Qed.

Lemma below_binade (t : Q) (m e k : Z) :
  (Z.abs m <= 2 ^ 53)%Z -> (e < k - 52)%Z -> t == inject_Z m * 2 ^ e -> t <= 2 ^ k.
Proof.
  intros Hm He Ht. apply Qle_trans with (inject_Z (2 ^ 53) * 2 ^ e).
  - rewrite Ht. apply Qmult_le_compat_r; [|apply Qlt_le_weak, pow2_pos].
    rewrite <- Zle_Qle. lia.
  - rewrite <- pow2_inject by lia. rewrite <- pow2_plus. apply pow2_le. lia.
Qed.

Lemma binade_start (k : Z) : 2 ^ k == inject_Z (2 ^ 52) * 2 ^ (k - 52).
Proof.
  rewrite <- pow2_inject by lia. rewrite <- pow2_plus.
  by replace (52 + (k - 52))%Z with k by lia.
Qed.

Lemma is_double_opp (q : Q) : is_double q -> is_double (- q).
Proof.
  intros (m & e & Hm & He & Hq). exists (- m)%Z, e.
  split; [lia|]. split; [done|]. rewrite inject_Z_opp, Hq. ring.
Qed.

Lemma double_pos_is_double (q : Q) : 0 < q -> is_double (double_pos q).
Proof.
  intros Hq. eexists _, _. split; [|split; [|apply double_pos_eq]]; [|lia].
  pose proof (scaled_nonneg q (Z.max (ilog2 q - 52) (-1074)) Hq) as Hlow.
  apply Z.abs_le. split; [lia|].
  apply round_even_le. apply Qle_shift_div_r; [apply pow2_pos|].
  apply Qle_trans with (2 ^ (ilog2 q + 1)); [by apply Qlt_le_weak, ilog2_lt|].
  rewrite <- pow2_inject by lia. rewrite <- pow2_plus. apply pow2_le. lia.
Qed.

Lemma double_pos_ge (t q : Q) : 0 < q -> is_double t -> t <= q -> t <= double_pos q.
Proof.
  intros Hq (m & E & Hm & HE & Ht) Htq. rewrite double_pos_eq.
  set (e := Z.max (ilog2 q - 52) (-1074)).
  destruct (Z.le_gt_cases e E) as [HeE | HEe].
  - pose proof (on_grid t m E e HeE Ht) as Hgrid.
    rewrite Hgrid. apply Qmult_le_compat_r; [|apply Qlt_le_weak, pow2_pos].
    rewrite <- Zle_Qle. apply round_even_ge.
    apply Qle_shift_div_l; [apply pow2_pos|]. by rewrite <- Hgrid.
  - assert (He : e = (ilog2 q - 52)%Z) by lia.
    apply Qle_trans with (2 ^ ilog2 q); [apply (below_binade t m E); [done | lia | done]|].
    rewrite (binade_start (ilog2 q)), <- He.
    apply Qmult_le_compat_r; [|apply Qlt_le_weak, pow2_pos].
    rewrite <- Zle_Qle. apply round_even_ge.
    apply Qle_shift_div_l; [apply pow2_pos|].
    rewrite He, <- binade_start. by apply ilog2_le.
Qed.

Lemma double_pos_le (u q : Q) : 0 < q -> is_double u -> q <= u -> double_pos q <= u.
Proof.
  intros Hq (m & E & Hm & HE & Hu) Hqu. rewrite double_pos_eq.
  set (e := Z.max (ilog2 q - 52) (-1074)).
  destruct (Z.le_gt_cases e E) as [HeE | HEe].
  - pose proof (on_grid u m E e HeE Hu) as Hgrid.
    rewrite Hgrid. apply Qmult_le_compat_r; [|apply Qlt_le_weak, pow2_pos].
    rewrite <- Zle_Qle. apply round_even_le.
    apply Qle_shift_div_r; [apply pow2_pos|]. by rewrite <- Hgrid.
  - assert (He : e = (ilog2 q - 52)%Z) by lia.
    assert (Hu' : u <= 2 ^ ilog2 q)
      by (apply (below_binade u m E); [done | lia | done]).
    apply Qle_trans with (2 ^ ilog2 q);
      [|apply Qle_trans with q; [by apply ilog2_le | done]].
    rewrite (binade_start (ilog2 q)), <- He.
    apply Qmult_le_compat_r; [|apply Qlt_le_weak, pow2_pos].
    rewrite <- Zle_Qle. apply round_even_le.
    apply Qle_shift_div_r; [apply pow2_pos|].
    rewrite He, <- binade_start. by apply Qle_trans with u.
Qed.

Lemma Qnum_sign (q : Q) :
  match Qnum q with
  | Z0 => q == 0
  | Zpos _ => 0 < q
  | Zneg _ => 0 < - q
  end.
Proof. destruct q as [[|n|n] d]; unfold Qeq, Qlt; simpl; lia. Qed.

(** What rounding yields is a double. *)
Lemma double_is_double (q : Q) : is_double (double q).
Proof.
  unfold double. pose proof (Qnum_sign q) as Hsign.
  destruct (Qnum q).
  - exists 0%Z, 0%Z. split; [lia|]. split; [lia | reflexivity].
  - by apply double_pos_is_double.
  - by apply is_double_opp, double_pos_is_double.
Qed.

(** Rounding does not cross a double: a double below [q] is below the
    double nearest to [q], and likewise above. *)
Lemma double_ge (t q : Q) : is_double t -> t <= q -> t <= double q.
Proof.
  intros Ht Htq. unfold double. pose proof (Qnum_sign q) as Hsign.
  destruct (Qnum q).
  - by rewrite <- Hsign.
  - by apply double_pos_ge.
  - apply Qopp_le_compat in Htq.
    pose proof (double_pos_le (- t) (- q) Hsign (is_double_opp t Ht) Htq) as Hle.
    apply Qopp_le_compat in Hle. by rewrite Qopp_involutive in Hle.
Qed.

Lemma double_le (u q : Q) : is_double u -> q <= u -> double q <= u.
Proof.
  intros Hu Hqu. unfold double. pose proof (Qnum_sign q) as Hsign.
  destruct (Qnum q).
  - by rewrite <- Hsign.
  - by apply double_pos_le.
  - apply Qopp_le_compat in Hqu.
    pose proof (double_pos_ge (- u) (- q) Hsign (is_double_opp u Hu) Hqu) as Hle.
    apply Qopp_le_compat in Hle. by rewrite Qopp_involutive in Hle.
Qed.

(** A double is its own nearest double. *)
Lemma double_fixed (q : Q) : is_double q -> double q == q.
Proof.
  intros Hq. apply Qle_antisym.
  - apply double_le; [done | apply Qle_refl].
  - apply double_ge; [done | apply Qle_refl].
Qed.

Lemma is_double_inject_Z (n : Z) : (Z.abs n <= 2 ^ 53)%Z -> is_double (inject_Z n).
Proof.
  intros Hn. exists n, 0%Z. split; [done|]. split; [lia|].
  change (2 ^ 0) with 1. ring.
Qed.

Lemma Math_max_is_double (a b : Time) : is_double a -> is_double b -> is_double (Math_max a b).
Proof. intros Ha Hb. unfold Math_max. by destruct (Qle_bool a b). Qed.

End Numbers.

(** [0.1 + 0.2] is [0.30000000000000004], not the double nearest to 0.3. *)
Example Number_add_rounds :
  Number_add (double (1 # 10)) (double (2 # 10)) = (1351079888211149 # 4503599627370496)%Q /\
  double (3 # 10) = (5404319552844595 # 18014398509481984)%Q.
Proof. split; vm_compute; reflexivity. Qed.

(** ** Playback scheduling *)

Arguments Number_add : simpl never.

Lemma Math_max_ge_l (a b : Time) : (a <= Math_max a b)%Q.
Proof.
  unfold Math_max. destruct (Qle_bool a b) eqn:Hab.
  - by apply Qle_bool_iff.
  - apply Qle_refl.
Qed.


Lemma chain_weaken (t t' : Time) (cs : list Chunk) :
  (t <= t')%Q -> chain t' cs -> chain t cs.
Proof.
  destruct cs as [|c cs]; simpl; [done|].
  intros Htt' [Hc Hcs]. split; [|done]. by apply Qle_trans with t'.
Qed.

Lemma cursor_app (t : Time) (cs cs' : list Chunk) :
  cursor t (cs ++ cs') = cursor (cursor t cs) cs'.
Proof. unfold cursor. rewrite last_app. by destruct (last cs'). Qed.

Lemma cursor_mono (t t' : Time) (cs : list Chunk) :
  (t <= t')%Q -> (cursor t cs <= cursor t' cs)%Q.
Proof. intros Htt'. unfold cursor. destruct (last cs); [apply Qle_refl | done]. Qed.

Lemma chain_app (t t' : Time) (cs cs' : list Chunk) :
  chain t cs -> (cursor t cs <= t')%Q -> chain t' cs' -> chain t (cs ++ cs').
Proof.
  revert t. induction cs as [|c cs IH]; intros t Hcs Hcursor Hcs'; simpl in *.
  - by apply chain_weaken with t'.
  - destruct Hcs as [Hc Hcs]. split; [done|].
    apply IH; [done | | done].
    destruct cs as [|c' cs]; [done|].
    unfold cursor in *. rewrite last_cons_cons in Hcursor.
    destruct (last (c' :: cs)) eqn:Hlast; [done|]. by apply last_None in Hlast.
Qed.


#[local] Instance schedule_grows_preorder : PreOrder schedule_grows.
Proof.
  split.
  - intros s. exists []. rewrite app_nil_r. repeat split. apply Qle_refl.
  - intros s1 s2 s3 (new & Hnew & Hchain & Hcursor) (new' & Hnew' & Hchain' & Hcursor').
    exists (new ++ new'). split; [|split].
    + by rewrite Hnew', Hnew, app_assoc.
    + by apply chain_app with (nextStartTimeRef s2).
    + rewrite cursor_app.
      apply Qle_trans with (cursor (nextStartTimeRef s2) new'); [|done].
      by apply cursor_mono.
Qed.

#[local] Instance same_schedule_preorder : PreOrder same_schedule.
Proof.
  split.
  - by intros s.
  - intros s1 s2 s3 [Hc Hn] [Hc' Hn']. split; congruence.
Qed.

#[local] Instance same_playback_preorder : PreOrder same_playback.
Proof.
  split.
  - by intros s.
  - intros s1 s2 s3 (Hc & Hn & Hh & Ho) (Hc' & Hn' & Hh' & Ho').
    repeat split; congruence.
Qed.




Lemma calls_same_playback (es : list Effect) :
  omap chunk_of es = [] -> grows same_playback (calls es).
Proof.
  intros Hes s. split; [|done]. unfold scheduled. simpl.
  rewrite omap_app, Hes. apply app_nil_r.
Qed.

Lemma call_same_playback (e : Effect) : chunk_of e = None -> grows same_playback (call e).
Proof. intros He. apply calls_same_playback. simpl. by rewrite He. Qed.

Lemma omap_chunk_of_TrackStop (n : nat) : omap chunk_of (replicate n TrackStop) = [].
Proof. by induction n. Qed.

Lemma omap_chunk_of_SourceStop (srcs : list Handle) :
  omap chunk_of (SourceStop <$> srcs) = [].
Proof. by induction srcs. Qed.

Ltac same_playback_leaf :=
  idtac;
  lazymatch goal with
  | |- grows _ (call _) => apply call_same_playback; reflexivity
  | |- grows _ (calls (replicate _ _)) =>
      apply calls_same_playback, omap_chunk_of_TrackStop
  | |- grows _ (calls (_ <$> _)) => apply calls_same_playback, omap_chunk_of_SourceStop
  | |- grows _ (modify _) => intros ?; repeat split; reflexivity
  end.

(** The transcription part of the handler leaves playback alone. *)
Lemma transcripts_same_playback (message : LiveServerMessage) (now : N) :
  grows same_playback (transcripts message now).
Proof.
  unfold transcripts, appendPartial, commit, setMessages.
  grows_with same_playback_leaf.
Qed.


(** So does [endSession]: it stops the sources and closes the contexts,
    but the refs keep the closed contexts. *)
Lemma endSession_same_playback : grows same_playback endSession.
Proof.
  intros s. split; [|split].
  - unfold exec, endSession, closeContext, call, calls, deref, when, modify, gets,
      mbind, mret, M_bind, M_ret, scheduled.
    destruct s as [? ? ? ? ? ? ? [?|] [?|] [?|] ? ? [?|] [?|] ? ? ? ? ? ?]; simpl;
      rewrite ?omap_app, ?omap_chunk_of_TrackStop, ?omap_chunk_of_SourceStop; simpl;
      by rewrite ?app_nil_r.
  - destruct s as [? ? ? ? ? ? ? [?|] [?|] [?|] ? ? [?|] [?|] ? ? ? ? ? ?];
      vm_compute; reflexivity.
  - destruct s as [? ? ? ? ? ? ? [?|] [?|] [?|] ? ? [?|] [?|] ? ? ? ? ? ?];
      split; vm_compute; reflexivity.
Qed.


Lemma bind_normal {A B : Type} (c : M A) (k : A -> M B) (s s1 : State) (a : A) :
  c s = (Normal a, s1) -> (c ≫= k) s = k a s1.
Proof. intros Hc. unfold mbind, M_bind. by rewrite Hc. Qed.

Lemma bind_throw {A B : Type} (c : M A) (k : A -> M B) (s s1 : State) (e : Exn) :
  c s = (Throw e, s1) -> (c ≫= k) s = (Throw e, s1).
Proof. intros Hc. unfold mbind, M_bind. by rewrite Hc. Qed.

(** The calls [resumeAudio] makes for the node [h] before it starts it. *)
Lemma omap_chunk_of_wiring (h : Handle) :
  omap chunk_of [CreateBufferSource h; CreateGain h; Connect (BufferSource h) (Gain h);
                 Connect (Gain h) OutputDestination] = [].
Proof. reflexivity. Qed.

Section Playback.

Variable decodeAudio : string -> option AudioBuffer.

(** What [resumeAudio] does, spelled out. *)
Lemma resumeAudio_spec (audioBuffer : AudioBuffer) (s : State) :
  resumeAudio audioBuffer s =
    (Normal tt,
     set_pendingEnded (s.(pendingEnded) ++ [s.(nodes)])
       (set_sourcesRef (Set_add s.(nodes) s.(sourcesRef))
          (set_nextStartTimeRef (Number_add s.(nextStartTimeRef) audioBuffer.(duration))
             (set_effects
                ((s.(effects) ++
                  [CreateBufferSource s.(nodes); CreateGain s.(nodes);
                   Connect (BufferSource s.(nodes)) (Gain s.(nodes));
                   Connect (Gain s.(nodes)) OutputDestination]) ++
                 [SourceStart s.(nodes) s.(nextStartTimeRef) audioBuffer.(duration)])
                (set_nodes (S s.(nodes)) s))))).
Proof. reflexivity. Qed.

(** What [scheduleAudio] does, spelled out. *)
Lemma scheduleAudio_spec (base64Audio : string) (currentTime : Time) (s : State) :
  scheduleAudio decodeAudio base64Audio currentTime s =
    let s1 := set_nextStartTimeRef (Math_max s.(nextStartTimeRef) currentTime)
                (setAudioMode speaking s) in
    match decodeAudio base64Audio with
    | None => (Throw DecodeError, s1)
    | Some audioBuffer => resumeAudio audioBuffer s1
    end.
Proof.
  unfold scheduleAudio, beginAudio, modify, mbind, mret, mthrow, M_bind, M_ret, M_throw.
  by destruct (decodeAudio base64Audio).
Qed.


Lemma resumeAudio_scheduled (audioBuffer : AudioBuffer) (s : State) :
  scheduled (exec (resumeAudio audioBuffer) s)
    = scheduled s ++ [mkChunk s.(nodes) s.(nextStartTimeRef) audioBuffer.(duration)].
Proof.
  unfold exec. rewrite resumeAudio_spec. unfold scheduled. simpl.
  by rewrite !omap_app, omap_chunk_of_wiring, app_nil_r.
Qed.



Lemma handleLiveMessage_unfold (message : LiveServerMessage) (currentTime : Time) (now : N)
    (s : State) :
  handleLiveMessage decodeAudio message currentTime now s =
    (when (nonempty (default "" (optional_audio message.(serverContent)))
           && truthy s.(outputContextRef))
       (scheduleAudio decodeAudio (default "" (optional_audio message.(serverContent)))
          currentTime) ;;
     transcripts message now) s.
Proof. reflexivity. Qed.






(** The half of the handler before the [await]. *)
Lemma arrive_spec (message : LiveServerMessage) (currentTime : Time) (s : State) :
  slice_step decodeAudio s (Arrive message currentTime) =
    if nonempty (default "" (optional_audio message.(serverContent)))
       && truthy s.(outputContextRef)
    then set_nextStartTimeRef (Math_max s.(nextStartTimeRef) currentTime)
           (setAudioMode speaking s)
    else s.
Proof.
  unfold slice_step, exec, arrive, gets, mbind, M_bind. simpl.
  by destruct (nonempty _ && truthy _).
Qed.


(** A message whose payload decodes is handled as its two halves in a row. *)
Lemma step_OnMessage_slices (s : State) (message : LiveServerMessage)
    (base64Audio : string) (currentTime : Time) (now : N) (audioBuffer : AudioBuffer) :
  optional_audio message.(serverContent) = Some base64Audio ->
  nonempty base64Audio = true ->
  truthy s.(outputContextRef) = true ->
  decodeAudio base64Audio = Some audioBuffer ->
  step decodeAudio s (OnMessage message currentTime now)
    = run_slices decodeAudio s [Arrive message currentTime; Resume message audioBuffer now].
Proof.
  intros Haudio Hnonempty Houtput Hdecode.
  change (run_slices decodeAudio s [Arrive message currentTime;
                                    Resume message audioBuffer now])
    with (slice_step decodeAudio (slice_step decodeAudio s (Arrive message currentTime))
            (Resume message audioBuffer now)).
  rewrite arrive_spec, Haudio.
  change (default "" (Some base64Audio)) with base64Audio.
  rewrite Hnonempty, Houtput. cbn [andb].
  unfold step, dispatch, slice_step, resume. unfold exec.
  rewrite handleLiveMessage_unfold, Haudio.
  change (default "" (Some base64Audio)) with base64Audio.
  rewrite Hnonempty, Houtput. cbn [andb when].
  unfold mbind, M_bind. by rewrite scheduleAudio_spec, Hdecode.
Qed.

(** The events that are neither a message nor a new start leave playback
    alone. *)
Lemma dispatch_same_playback (ev : Event) :
  match ev with
  | ClickStart _ | OnMessage _ _ _ => True
  | _ => grows same_playback (dispatch decodeAudio ev)
  end.
Proof.
  destruct ev; try done; unfold dispatch;
    try apply endSession_same_playback;
    unfold onopen, setupAudioInput, onclose, onerror, onended, ontimeout;
    grows_with same_playback_leaf.
Qed.

(** One event against the schedule of the specification. *)
Lemma step_schedule_message (s : State) (ev : Event) (t : Time) (h : Handle)
    (cs : list Chunk) :
  is_ClickStart ev = false ->
  truthy s.(outputContextRef) = true ->
  schedule_message decodeAudio s.(nextStartTimeRef) s.(nodes) ev = (t, h, cs) ->
  let s' := step decodeAudio s ev in
  scheduled s' = scheduled s ++ cs /\ s'.(nextStartTimeRef) = t /\ s'.(nodes) = h /\
  truthy s'.(outputContextRef) = true.
Proof.
  intros Hev Houtput Hspec s'.
  assert (Hsame : same_playback s s' -> (s.(nextStartTimeRef), s.(nodes), []) = (t, h, cs) ->
                  scheduled s' = scheduled s ++ cs /\ s'.(nextStartTimeRef) = t /\
                  s'.(nodes) = h /\ truthy s'.(outputContextRef) = true).
  { intros (Hsched & Hnext & Hnodes & Hout) [= <- <- <-].
    by rewrite app_nil_r, Hout. }
  pose proof (dispatch_same_playback ev) as Hframe.
  destruct ev; try discriminate; simpl in Hspec;
    try (apply Hsame; [apply Hframe | exact Hspec]).
  clear Hframe.
  assert (Hskip : nonempty (default "" (optional_audio message.(serverContent)))
                  && truthy s.(outputContextRef) = false -> same_playback s s').
  { intros Hguard. unfold s', step, dispatch, exec.
    rewrite handleLiveMessage_unfold, Hguard.
    apply (transcripts_same_playback message now s). }
  destruct (optional_audio (serverContent message)) as [base64Audio|] eqn:Haudio;
    [|apply Hsame; [by apply Hskip | exact Hspec]].
  change (default "" (Some base64Audio)) with base64Audio in Hskip.
  destruct (nonempty base64Audio) eqn:Hnonempty;
    [|apply Hsame; [by apply Hskip | exact Hspec]].
  clear Hsame Hskip. unfold s', step, dispatch, exec.
  rewrite handleLiveMessage_unfold, Haudio.
  change (default "" (Some base64Audio)) with base64Audio.
  rewrite Hnonempty, Houtput. cbn [andb when].
  unfold mbind, M_bind. rewrite scheduleAudio_spec. cbv zeta.
  destruct (decodeAudio base64Audio) as [audioBuffer|]; injection Hspec as <- <- <-.
  - rewrite resumeAudio_spec.
    match goal with
    | |- context [transcripts message now ?s1] =>
        destruct (transcripts_same_playback message now s1)
          as (Hsched & Hnext & Hnodes & Hout)
    end.
    unfold exec in Hsched, Hnext, Hnodes, Hout. rewrite Hsched, Hnext, Hnodes, Hout.
    repeat match goal with |- _ /\ _ => split end; try reflexivity; [|exact Houtput].
    unfold scheduled. simpl.
    by rewrite !omap_app, omap_chunk_of_wiring, app_nil_r.
  - simpl. by rewrite app_nil_r, Houtput.
Qed.

(** With handlers that run to their end, the code schedules what the
    specification schedules. *)
Lemma run_playlist (evs : list Event) (s : State) :
  one_session evs ->
  truthy s.(outputContextRef) = true ->
  scheduled (run decodeAudio s evs)
    = scheduled s ++ playlist decodeAudio s.(nextStartTimeRef) s.(nodes) evs.
Proof.
  revert s. induction evs as [|ev evs IH]; intros s Hevs Houtput; simpl.
  - by rewrite app_nil_r.
  - apply Forall_cons in Hevs as [Hev Hevs].
    destruct (schedule_message decodeAudio (nextStartTimeRef s) (nodes s) ev)
      as [[t h] cs] eqn:Hspec.
    destruct (step_schedule_message s ev t h cs Hev Houtput Hspec)
      as (Hsched & Hnext & Hnodes & Hout).
    rewrite (IH _ Hevs Hout), Hsched, Hnext, Hnodes. by rewrite app_assoc.
Qed.


End Playback.



(** ** A payload that fails to decode *)

Lemma Math_max_absorb (t now now' : Time) :
  (now <= now')%Q -> Math_max (Math_max t now) now' = Math_max t now'.
Proof.
  intros Hnow. unfold Math_max.
  destruct (Qle_bool t now) eqn:Ht; [|done].
  apply Qle_bool_iff in Ht.
  assert (Qle_bool now now' = true) as -> by (by apply Qle_bool_iff).
  assert (Qle_bool t now' = true) as -> by (apply Qle_bool_iff; by apply Qle_trans with now).
  done.
Qed.

(** C4, as the specification words it, fails: the handler raises
    [nextStartTime] to the clock reading before it decodes, so a payload that
    fails to decode at clock 5 in a fresh session leaves [nextStartTime] at 5,
    not at 0. *)
Lemma decode_failure_moves_nextStartTime :
  ~ decode_failure_changes_nothing sample_decoder.
Proof.
  intros Hclaim.
  destruct (Hclaim open_session "!!!!" 5%Q 1%N eq_refl eq_refl eq_refl)
    as (_ & _ & Hnext & _).
  vm_compute in Hnext. discriminate.
Qed.

(** C4, amended.  A message whose audio payload fails to decode makes the
    handler throw [DecodeError] before it touches the transcript: the state
    it leaves differs from the one it found only in the audio indicator and
    in [nextStartTime], raised to [max(nextStartTime, currentTime)]; the
    status, the message log, the transcript buffers, the live handles and
    the schedule are untouched.  If the audio clock does not run backwards,
    the next message with a payload that decodes is then handled exactly as
    if the failed message had never arrived: the two runs end in the same
    state. *)
Theorem decode_failure_isolated (decodeAudio : string -> option AudioBuffer) (s : State)
    (message message' : LiveServerMessage) (base64Audio base64Audio' : string)
    (currentTime currentTime' : Time) (now now' : N) (audioBuffer : AudioBuffer) :
  optional_audio message.(serverContent) = Some base64Audio ->
  nonempty base64Audio = true ->
  truthy s.(outputContextRef) = true ->
  decodeAudio base64Audio = None ->
  optional_audio message'.(serverContent) = Some base64Audio' ->
  nonempty base64Audio' = true ->
  decodeAudio base64Audio' = Some audioBuffer ->
  (currentTime <= currentTime')%Q ->
  let s1 := step decodeAudio s (OnMessage message currentTime now) in
  handleLiveMessage decodeAudio message currentTime now s = (Throw DecodeError, s1) /\
  s1 = set_nextStartTimeRef (Math_max s.(nextStartTimeRef) currentTime)
         (setAudioMode speaking s) /\
  s1.(messages) = s.(messages) /\
  s1.(status) = s.(status) /\
  scheduled s1 = scheduled s /\
  step decodeAudio s1 (OnMessage message' currentTime' now')
    = step decodeAudio s (OnMessage message' currentTime' now').
Proof.
  intros Haudio Hnonempty Houtput Hdecode Haudio' Hnonempty' Hdecode' Hclock s1.
  assert (Hfail : handleLiveMessage decodeAudio message currentTime now s
                  = (Throw DecodeError,
                     set_nextStartTimeRef (Math_max s.(nextStartTimeRef) currentTime)
                       (setAudioMode speaking s))).
  { rewrite handleLiveMessage_unfold, Haudio.
    change (default "" (Some base64Audio)) with base64Audio.
    rewrite Hnonempty, Houtput. cbn [andb when].
    apply bind_throw. by rewrite scheduleAudio_spec, Hdecode. }
  assert (Hs1 : s1 = set_nextStartTimeRef (Math_max s.(nextStartTimeRef) currentTime)
                       (setAudioMode speaking s)).
  { unfold s1, step, dispatch, exec. by rewrite Hfail. }
  split; [by rewrite Hs1|]. split; [done|].
  rewrite Hs1. repeat match goal with |- _ /\ _ => split end; try reflexivity.
  unfold step, dispatch, exec. rewrite !handleLiveMessage_unfold, Haudio'.
  change (default "" (Some base64Audio')) with base64Audio'.
  rewrite Hnonempty'.
  change (outputContextRef (set_nextStartTimeRef _ (setAudioMode speaking s)))
    with (outputContextRef s).
  rewrite Houtput. cbn [andb when].
  erewrite !bind_normal; [| by rewrite scheduleAudio_spec, Hdecode' ..].
  cbn -[Math_max transcripts]. by rewrite Math_max_absorb.
Qed.

Lemma decode_failure_isolated_witness :
  let bad := audio_message "!!!!" in
  let good := audio_message "QUJDREVGR0g=" in
  let s1 := step sample_decoder open_session (OnMessage bad 5%Q 1%N) in
  handleLiveMessage sample_decoder bad 5%Q 1%N open_session = (Throw DecodeError, s1) /\
  s1 = set_nextStartTimeRef (Math_max open_session.(nextStartTimeRef) 5%Q)
         (setAudioMode speaking open_session) /\
  s1.(messages) = open_session.(messages) /\
  s1.(status) = open_session.(status) /\
  scheduled s1 = scheduled open_session /\
  step sample_decoder s1 (OnMessage good 6%Q 2%N)
    = step sample_decoder open_session (OnMessage good 6%Q 2%N).
Proof.
  intros bad good.
  assert (Hclock : (5 <= 6)%Q) by (unfold Qle; simpl; lia).
  exact (decode_failure_isolated sample_decoder open_session bad good
           "!!!!" "QUJDREVGR0g=" 5%Q 6%Q 1%N 2%N
           (mkAudioBuffer (sample_duration "QUJDREVGR0g="))
           eq_refl eq_refl eq_refl eq_refl eq_refl eq_refl eq_refl Hclock).
Defined.

(** ** Callbacks after teardown *)

(** What does hold of [stopAll]: [endSession] calls [stop] on every live
    handle and empties the set. *)
Lemma endSession_stops_sources (s : State) (h : Handle) :
  h ∈ s.(sourcesRef) ->
  SourceStop h ∈ (exec endSession s).(effects) /\ (exec endSession s).(sourcesRef) = [].
Proof.
  intros Hh.
  assert (Hstop : SourceStop h ∈ SourceStop <$> s.(sourcesRef))
    by (by apply list_elem_of_fmap_2).
  destruct s as [? ? ? ? ? ? ? [?|] [?|] [?|] ? ? [?|] [?|] ? ? ? ? ? ?];
    (split; [|vm_compute; reflexivity]);
    unfold exec, endSession, closeContext, call, calls, deref, when, modify, gets,
      mbind, mret, M_bind, M_ret; simpl in *;
    rewrite ?elem_of_app; tauto.
Qed.

(** C6. Completion callbacks do fire after teardown and move the indicator
    off [idle].  A chunk finishes, its [onended] finds the set empty and
    arms the 200 ms timeout; [endSession] within those 200 ms sets the
    indicator to [idle] but leaves the timeout armed, and when it fires the
    indicator goes to [listening].  The same happens when [endSession] stops
    a chunk that is still playing and the node then delivers [ended]. *)
Theorem callback_after_teardown :
  let playing := step sample_decoder open_session
                   (OnMessage (audio_message "QUJDREVGR0g=") 0%Q 1%N) in
  (run sample_decoder playing [Ended 0%nat; ClickEnd]).(audioMode) = idle /\
  (run sample_decoder playing [Ended 0%nat; ClickEnd]).(timers) = 1%nat /\
  (run sample_decoder playing [Ended 0%nat; ClickEnd; Timeout]).(audioMode) = listening /\
  (run sample_decoder playing [ClickEnd]).(sourcesRef) = [] /\
  (run sample_decoder playing [ClickEnd; Ended 0%nat; Timeout]).(audioMode) = listening.
Proof.
  intros playing. repeat match goal with |- _ /\ _ => split end; vm_compute; reflexivity.
Qed.

(** ** The PCM codec *)

Section Codec.

Import AudioCodec.

Local Open Scope Z_scope.

(** The two bytes of an integer hold its low sixteen bits. *)
Lemma int16_bytes_low_bits (k : Z) :
  Z.lor (Z.land k 255) (Z.shiftl (Z.land (Z.shiftr k 8) 255) 8) = Z.land k 65535.
Proof.
  change 255 with (Z.ones 8). change 65535 with (Z.ones 16).
  apply Z.bits_inj'. intros n Hn.
  rewrite Z.lor_spec, Z.shiftl_spec, !Z.land_spec, !Z.testbit_ones by lia.
  replace (0 <=? n) with true by (symmetry; apply Z.leb_le; lia).
  destruct (Z.ltb_spec n 8) as [Hlow | Hhigh].
  - replace (0 <=? n - 8) with false by (symmetry; apply Z.leb_gt; lia).
    replace (n <? 16) with true by (symmetry; apply Z.ltb_lt; lia).
    by rewrite !andb_false_r, orb_false_r.
  - rewrite Z.shiftr_spec by lia.
    replace (n - 8 + 8) with n by lia.
    replace (0 <=? n - 8) with true by (symmetry; apply Z.leb_le; lia).
    replace (n - 8 <? 8) with (n <? 16)
      by (destruct (Z.ltb_spec n 16), (Z.ltb_spec (n - 8) 8); lia || done).
    by rewrite !andb_false_r.
Qed.

(** A 16-bit signed integer survives the trip through its two bytes. *)
Lemma int16_of_bytes_int16_bytes (k : Z) :
  -32768 <= k < 32768 ->
  int16_of_bytes (Z.land k 255) (Z.land (Z.shiftr k 8) 255) = k.
Proof.
  intros Hk. unfold int16_of_bytes. rewrite int16_bytes_low_bits.
  change 65535 with (Z.ones 16). rewrite Z.land_ones by lia.
  change (2 ^ 16) with 65536.
  destruct (Z.ltb_spec (k mod 65536) 32768); Z.div_mod_to_equations; lia.
Qed.

Local Open Scope Q_scope.

Lemma clamp_range (x : Q) : -1 <= clamp x /\ clamp x <= 1.
Proof.
  unfold clamp.
  destruct (Qle_bool x (-1)) eqn:Hlow; [split; lra|].
  destruct (Qle_bool 1 x) eqn:Hhigh; [split; lra|].
  assert (~ x <= -1) by (rewrite <- Qle_bool_iff; congruence).
  assert (~ 1 <= x) by (rewrite <- Qle_bool_iff; congruence).
  split; lra.
Qed.

Lemma clamp_id (x : Q) : -1 <= x -> x <= 1 -> clamp x == x.
Proof.
  intros Hlow Hhigh. unfold clamp.
  destruct (Qle_bool x (-1)) eqn:Hx; [apply Qle_bool_iff in Hx; lra|].
  destruct (Qle_bool 1 x) eqn:Hx'; [apply Qle_bool_iff in Hx'; lra|].
  reflexivity.
Qed.

(** Rounding to nearest stays within one half. *)
Lemma round_near (x : Q) :
  inject_Z (round x) <= x + (1 # 2) /\ x - (1 # 2) < inject_Z (round x).
Proof.
  unfold round. split.
  - apply Qfloor_le.
  - pose proof (Qlt_floor (x + (1 # 2))) as Hlt.
    rewrite inject_Z_plus in Hlt. change (inject_Z 1) with 1 in Hlt. lra.
Qed.

Lemma quantize_range (x : Q) : (-32768 <= quantize x < 32768)%Z.
Proof.
  unfold quantize.
  destruct (clamp_range x) as [Hlow Hhigh].
  destruct (round_near (clamp x * 32767)) as [Hle Hgt].
  split.
  - apply Z.lt_succ_r. rewrite Zlt_Qlt.
    change (inject_Z (Z.succ (round (clamp x * 32767))))
      with (inject_Z (round (clamp x * 32767) + 1)).
    rewrite inject_Z_plus. change (inject_Z (-32768)) with (-32768).
    change (inject_Z 1) with 1. lra.
  - rewrite Zlt_Qlt. change (inject_Z 32768) with 32768. lra.
Qed.

(** Decoding what [encode] produced gives back the quantized samples. *)
Lemma samples_of_bytes_encode (s : list Q) (rate : Z) :
  samples_of_bytes (encode s rate)
    = Some (map (fun x => inject_Z (quantize x) / 32768) s).
Proof.
  induction s as [|x s IH]; [done|].
  unfold encode in *. simpl. rewrite IH. simpl.
  by rewrite int16_of_bytes_int16_bytes by apply quantize_range.
Qed.

(** The error of one sample. *)
Lemma quantize_error (x : Q) :
  -1 <= x -> x <= 1 -> Qabs (inject_Z (quantize x) / 32768 - x) <= 3 # 65536.
Proof.
  intros Hlow Hhigh. unfold quantize.
  destruct (round_near (clamp x * 32767)) as [Hle Hgt].
  pose proof (clamp_id x Hlow Hhigh) as Hclamp.
  generalize dependent (inject_Z (round (clamp x * 32767))). intros k Hle Hgt.
  generalize dependent (clamp x). intros c Hclamp Hle Hgt.
  change (k / 32768) with (k * (1 # 32768)).
  apply Qabs_Qle_condition. split; lra.
Qed.

End Codec.

(** C5, as the specification words it, fails: the single-precision sample
    nearest to 0.9 is encoded as 29490 and decoded as 29490/32768, which is
    off by more than 1/32768. *)
Lemma roundtrip_error_exceeds_bound : ~ AudioCodec.roundtrip_within (1 # 32768).
Proof.
  intros Hclaim.
  assert (Hrange : Forall (fun x => (-1 <= x /\ x <= 1)%Q) [(7549747 # 8388608)%Q]).
  { repeat constructor; unfold Qle; simpl; lia. }
  destruct (Hclaim [(7549747 # 8388608)%Q] 16000%Z Hrange) as (chunk & Hdecode & Hnear).
  vm_compute in Hdecode. injection Hdecode as <-.
  apply Forall2_cons_1 in Hnear as [Hnear _].
  vm_compute in Hnear. by apply Hnear.
Qed.

(** C5, amended.  For every sample sequence with values in [-1,1], decoding
    its encoding gives back as many samples, each within 3/65536 (one and a
    half steps of 1/32768) of the original: up to half a step is lost in
    rounding and up to a whole step because the encoder scales by 32767
    and the decoder divides by 32768. *)
Theorem roundtrip_error_bound : AudioCodec.roundtrip_within (3 # 65536).
Proof.
  intros s rate Hrange.
  exists (AudioCodec.mkAudioChunk
            (map (fun x => (inject_Z (AudioCodec.quantize x) / 32768)%Q) s) rate 1).
  split.
  - unfold AudioCodec.bytesToAudioBuffer. by rewrite samples_of_bytes_encode.
  - simpl. induction Hrange as [|x s [Hlow Hhigh] _ IH]; simpl; constructor; [|done].
    by apply quantize_error.
Qed.

Lemma roundtrip_error_bound_witness :
  let s := [(9 # 10)%Q; (-1)%Q; 1%Q; 0%Q; (- (1 # 2))%Q] in
  Forall (fun x => (-1 <= x /\ x <= 1)%Q) s /\
  exists chunk : AudioCodec.AudioChunk,
    AudioCodec.bytesToAudioBuffer (AudioCodec.encode s 16000) 16000 = Some chunk /\
    Forall2 (fun x y => (Qabs (y - x) <= 3 # 65536)%Q) s chunk.(AudioCodec.samples).
Proof.
  intros s.
  assert (Hrange : Forall (fun x => (-1 <= x /\ x <= 1)%Q) s)
    by (repeat constructor; unfold Qle; simpl; lia).
  exact (conj Hrange (roundtrip_error_bound s 16000%Z Hrange)).
Defined.

(** * Further properties of the session code *)

(** ** Starting a session *)

Lemma ready_finalScenario (env : Env) (s : State) :
  ready env s = true -> exists sc : Scenario, finalScenario s = Some sc.
Proof.
  unfold ready, finalScenario. intros Hready.
  apply andb_true_iff in Hready as [_ Hchoice].
  destruct (nonempty (trim (customScenario s))); [by eexists|].
  destruct (selectedScenario s); [by eexists | done].
Qed.

Lemma ready_credential (env : Env) (s : State) :
  ready env s = true ->
  negb (truthy env.(API_KEY) && nonempty (default "" env.(API_KEY))) = false.
Proof.
  unfold ready. intros Hready.
  apply andb_true_iff in Hready as [Hkey _]. by rewrite Hkey.
Qed.

(** [startSession] past its two checks: what is left is the [try] block. *)
Lemma startSession_ready (env : Env) (s : State) (sc : Scenario) :
  ready env s = true -> finalScenario s = Some sc ->
  startSession env s =
    try_catch
      (call (NewGoogleGenAI (default "" env.(API_KEY))) ;;
       input ← newAudioContext env INPUT_SAMPLE_RATE ;
       modify (set_inputContextRef (Some input)) ;;
       output ← newAudioContext env OUTPUT_SAMPLE_RATE ;
       modify (set_outputContextRef (Some output)) ;;
       modify (set_nextStartTimeRef 0%Q) ;;
       call GetUserMedia ;;
       stream ← match env.(getUserMedia) with
                | Some stream => mret stream
                | None => mthrow DeviceError
                end ;
       modify (set_streamRef (Some stream)) ;;
       mode ← gets learningMode ;
       call (LiveConnect mode sc) ;;
       modify (set_sessionRef (Some (mkSessionPromise mode sc))))
      (fun _ =>
         call (ConsoleError "Failed to start session:") ;;
         modify (setStatus error))
      (putMessages [] (setCurrentStep session (setStatus connecting s))).
Proof.
  intros Hready Hfinal. unfold startSession.
  rewrite (ready_credential env s Hready).
  unfold finalScenario in Hfinal.
  unfold mbind at 1 2. unfold M_bind at 1 2. unfold gets at 1 2.
  cbv zeta. rewrite Hfinal. reflexivity.
Qed.

(** X1. A start that passes the checks, with audio contexts available and
    the microphone granted, returns normally with status [connecting] on
    the session screen, an empty log, [nextStartTime] at 0, an input
    context at 16 kHz and an output context at 24 kHz, the microphone
    stream, and a connection opened for the learning mode and the scenario
    of [finalScenario]: custom text, as typed, when it is not blank, and
    the selected scenario otherwise. *)
Theorem startSession_connects (env : Env) (s : State) (stream : MediaStream) :
  ready env s = true ->
  env.(audioContextAvailable) = true ->
  env.(getUserMedia) = Some stream ->
  let s' := exec (startSession env) s in
  exists sc : Scenario,
    finalScenario s = Some sc /\
    startSession env s = (Normal tt, s') /\
    s'.(status) = connecting /\ s'.(currentStep) = session /\ s'.(messages) = [] /\
    s'.(nextStartTimeRef) = 0%Q /\
    s'.(inputContextRef) = Some (mkAudioContext INPUT_SAMPLE_RATE false) /\
    s'.(outputContextRef) = Some (mkAudioContext OUTPUT_SAMPLE_RATE false) /\
    s'.(streamRef) = Some stream /\
    s'.(sessionRef) = Some (mkSessionPromise s.(learningMode) sc) /\
    s'.(effects) = s.(effects) ++
      [NewGoogleGenAI (default "" env.(API_KEY));
       NewAudioContext INPUT_SAMPLE_RATE; NewAudioContext OUTPUT_SAMPLE_RATE;
       GetUserMedia; LiveConnect s.(learningMode) sc].
Proof.
  intros Hready Havailable Hstream s'.
  destruct (ready_finalScenario env s Hready) as [sc Hsc].
  exists sc. split; [done|].
  unfold s', exec. rewrite (startSession_ready env s sc Hready Hsc).
  unfold try_catch, newAudioContext. rewrite Havailable, Hstream.
  unfold call, modify, gets, mbind, mret, M_bind, M_ret. simpl.
  repeat match goal with |- _ /\ _ => split end; try reflexivity.
  by rewrite <- !app_assoc.
Qed.

Lemma startSession_connects_witness :
  let s := run sample_decoder initial [TypeCustomScenario " Job Interview "] in
  let s' := exec (startSession sample_env) s in
  exists sc : Scenario,
    finalScenario s = Some sc /\
    startSession sample_env s = (Normal tt, s') /\
    s'.(status) = connecting /\ s'.(currentStep) = session /\ s'.(messages) = [] /\
    s'.(nextStartTimeRef) = 0%Q /\
    s'.(inputContextRef) = Some (mkAudioContext INPUT_SAMPLE_RATE false) /\
    s'.(outputContextRef) = Some (mkAudioContext OUTPUT_SAMPLE_RATE false) /\
    s'.(streamRef) = Some (mkMediaStream 1) /\
    s'.(sessionRef) = Some (mkSessionPromise s.(learningMode) sc) /\
    s'.(effects) = s.(effects) ++
      [NewGoogleGenAI "key";
       NewAudioContext INPUT_SAMPLE_RATE; NewAudioContext OUTPUT_SAMPLE_RATE;
       GetUserMedia; LiveConnect s.(learningMode) sc].
Proof.
  intros s.
  exact (startSession_connects sample_env s (mkMediaStream 1) eq_refl eq_refl eq_refl).
Defined.

(** X2. A start that passes the checks but finds no [AudioContext], or is
    refused the microphone, does not throw: the error is caught, reported
    on the console, and the status is [error] on the session screen with
    an empty log.  No connection is opened and the session and stream refs
    are as before.  When it is the microphone that fails, the two audio
    contexts created before it stay in their refs, open. *)
Theorem startSession_device_failure (env : Env) (s : State) :
  ready env s = true ->
  env.(audioContextAvailable) = false \/ env.(getUserMedia) = None ->
  let s' := exec (startSession env) s in
  startSession env s = (Normal tt, s') /\
  s'.(status) = error /\ s'.(currentStep) = session /\ s'.(messages) = [] /\
  s'.(sessionRef) = s.(sessionRef) /\ s'.(streamRef) = s.(streamRef) /\
  s'.(inputContextRef) =
    (if env.(audioContextAvailable)
     then Some (mkAudioContext INPUT_SAMPLE_RATE false) else s.(inputContextRef)) /\
  s'.(outputContextRef) =
    (if env.(audioContextAvailable)
     then Some (mkAudioContext OUTPUT_SAMPLE_RATE false) else s.(outputContextRef)) /\
  s'.(effects) = s.(effects) ++
    [NewGoogleGenAI (default "" env.(API_KEY))] ++
    (if env.(audioContextAvailable)
     then [NewAudioContext INPUT_SAMPLE_RATE; NewAudioContext OUTPUT_SAMPLE_RATE;
           GetUserMedia]
     else []) ++
    [ConsoleError "Failed to start session:"].
Proof.
  intros Hready Hfailure s'.
  destruct (ready_finalScenario env s Hready) as [sc Hsc].
  unfold s', exec. rewrite (startSession_ready env s sc Hready Hsc).
  unfold try_catch, newAudioContext.
  destruct (audioContextAvailable env) eqn:Havailable.
  - destruct Hfailure as [? | Hstream]; [done|]. rewrite Hstream.
    unfold call, modify, gets, mbind, mret, mthrow, M_bind, M_ret, M_throw. simpl.
    repeat match goal with |- _ /\ _ => split end; try reflexivity.
    by rewrite <- !app_assoc.
  - unfold call, modify, gets, mbind, mret, mthrow, M_bind, M_ret, M_throw. simpl.
    repeat match goal with |- _ /\ _ => split end; try reflexivity.
    by rewrite <- !app_assoc.
Qed.

Lemma startSession_device_failure_witness :
  let env := mkEnv (Some "key") true None in
  let s := run sample_decoder initial
             [SelectScenario (mkScenario "intro" "Self Introduction" "Meet" "i")] in
  let s' := exec (startSession env) s in
  startSession env s = (Normal tt, s') /\
  s'.(status) = error /\ s'.(currentStep) = session /\ s'.(messages) = [] /\
  s'.(sessionRef) = s.(sessionRef) /\ s'.(streamRef) = s.(streamRef) /\
  s'.(inputContextRef) = Some (mkAudioContext INPUT_SAMPLE_RATE false) /\
  s'.(outputContextRef) = Some (mkAudioContext OUTPUT_SAMPLE_RATE false) /\
  s'.(effects) = s.(effects) ++
    [NewGoogleGenAI "key"] ++
    [NewAudioContext INPUT_SAMPLE_RATE; NewAudioContext OUTPUT_SAMPLE_RATE;
     GetUserMedia] ++
    [ConsoleError "Failed to start session:"].
Proof.
  intros env s.
  exact (startSession_device_failure env s eq_refl (or_intror eq_refl)).
Defined.

(** ** The setup screen *)

(** Walk through a handler whose parts are all unfolded. *)
Ltac grows_all leaf :=
  repeat first [ leaf | grows_step | progress cbv zeta ].

Ltac unfold_handlers :=
  unfold dispatch, startSession, newAudioContext, onopen, setupAudioInput,
    handleLiveMessage, transcripts, scheduleAudio, beginAudio, resumeAudio,
    appendPartial, commit, setMessages, onclose, onerror, onended, ontimeout,
    endSession, closeContext, call, calls.

#[local] Instance keeps_choice_preorder : PreOrder keeps_choice.
Proof.
  split.
  - by intros s.
  - intros s1 s2 s3 [Hsel Hcustom] [Hsel' Hcustom']. split; congruence.
Qed.

Ltac keeps_choice_leaf :=
  idtac;
  lazymatch goal with
  | |- grows _ (modify _) => intros ?; split; reflexivity
  end.

(** Only the two controls of the setup screen touch the choice. *)
Lemma dispatch_keeps_choice (decodeAudio : string -> option AudioBuffer) (ev : Event) :
  match ev with
  | SelectScenario _ | TypeCustomScenario _ => True
  | _ => grows keeps_choice (dispatch decodeAudio ev)
  end.
Proof. destruct ev; try done; unfold_handlers; grows_all keeps_choice_leaf. Qed.

(** X3. Whatever happens, a selected scenario and custom text never stand
    side by side: selecting a scenario clears the text, typing clears the
    selection, and nothing else touches either. *)
Theorem choice_stays_exclusive (decodeAudio : string -> option AudioBuffer)
    (evs : list Event) :
  exclusive_choice (run decodeAudio initial evs).
Proof.
  assert (Hinitial : exclusive_choice initial) by (by left).
  revert Hinitial. generalize initial.
  induction evs as [|ev evs IH]; intros s Hs; [done|].
  simpl. apply IH.
  pose proof (dispatch_keeps_choice decodeAudio ev) as Hev.
  destruct ev; try (destruct (Hev s) as [Hsel Hcustom]; unfold exclusive_choice, step;
                    by rewrite Hsel, Hcustom).
  - by right.
  - by left.
Qed.

(** X4. The Start button and the check in [startSession] disagree on one
    case only: with a credential present, the button is enabled and the
    check still fails exactly when no scenario is selected and the custom
    text is not empty but blank. *)
Theorem enabled_start_fails_on_blank_text (env : Env) (s : State) :
  truthy env.(API_KEY) && nonempty (default "" env.(API_KEY)) = true ->
  startDisabled s = false /\ ready env s = false <->
  s.(selectedScenario) = None /\ nonempty s.(customScenario) = true /\
  trim s.(customScenario) = "".
Proof.
  unfold startDisabled, ready. intros ->.
  destruct (selectedScenario s) as [sc|]; simpl.
  - rewrite orb_true_r. split; [by intros [_ ?] | by intros [? _]].
  - rewrite orb_false_r.
    destruct (nonempty (customScenario s)); destruct (trim (customScenario s));
      simpl; intuition congruence.
Qed.

(** The text is an ideographic space (U+3000) and a no-break space
    (U+00A0). *)
Lemma enabled_start_fails_on_blank_text_witness :
  let s := run sample_decoder initial [TypeCustomScenario "　 "] in
  startDisabled s = false /\ ready sample_env s = false.
Proof.
  intros s.
  exact (proj2 (enabled_start_fails_on_blank_text sample_env s eq_refl)
           (conj eq_refl (conj eq_refl eq_refl))).
Defined.

(** ** Teardown and late callbacks *)

(** X5. [endSession] lets go of everything it holds: afterwards there is
    no session promise and no microphone stream, every audio context still
    in a ref is closed, the capture node is dropped unless there was no
    input context, and the component is back on the setup screen with the
    indicator [idle]. *)
Theorem endSession_releases (s : State) :
  let s' := exec endSession s in
  s'.(sessionRef) = None /\ s'.(streamRef) = None /\
  match s'.(inputContextRef) with Some ctx => ctx.(closed) = true | None => True end /\
  match s'.(outputContextRef) with Some ctx => ctx.(closed) = true | None => True end /\
  (s'.(scriptProcessorRef) = None \/ s.(inputContextRef) = None) /\
  s'.(currentStep) = setup /\ s'.(audioMode) = idle.
Proof.
  destruct s as [? ? ? ? ? ? ? [?|] [?|] [?|] ? ? [?|] [?|] ? ? ? ? ? ?];
    cbv zeta; repeat match goal with |- _ /\ _ => split end;
    try (vm_compute; reflexivity); try (left; vm_compute; reflexivity);
    right; reflexivity.
Qed.


#[local] Instance connects_not_preorder : PreOrder connects_not.
Proof.
  split.
  - intros s Hs. exact Hs.
  - intros s1 s2 s3 H12 H23 H3. apply H12. by apply H23.
Qed.

Ltac connects_not_leaf :=
  idtac;
  lazymatch goal with
  | |- grows _ (modify (setStatus _)) => by intros ? ?
  | |- grows _ (modify _) => intros ? H; exact H
  end.

Lemma dispatch_connects_not (decodeAudio : string -> option AudioBuffer) (ev : Event) :
  match ev with
  | OnOpen => True
  | _ => grows connects_not (dispatch decodeAudio ev)
  end.
Proof. destruct ev; try done; unfold_handlers; grows_all connects_not_leaf. Qed.

(** X7. The status is [connected] only after the transport has reported
    [onopen]: in every run from the mounted component that ends with
    status [connected], an [OnOpen] event occurs. *)
Theorem connected_only_after_onopen (decodeAudio : string -> option AudioBuffer)
    (evs : list Event) :
  (run decodeAudio initial evs).(status) = connected -> OnOpen ∈ evs.
Proof.
  induction evs as [|ev evs IH] using rev_ind; [done|].
  unfold run. rewrite foldl_app. simpl. fold (run decodeAudio initial evs).
  intros Hconnected. apply elem_of_app.
  pose proof (dispatch_connects_not decodeAudio ev) as Hev.
  destruct ev; try (left; apply IH; by apply (Hev (run decodeAudio initial evs))).
  right. by left.
Qed.

Lemma connected_only_after_onopen_witness :
  let evs := [TypeCustomScenario "Job Interview"; ClickStart sample_env; OnOpen] in
  (run sample_decoder initial evs).(status) = connected /\ OnOpen ∈ evs.
Proof.
  intros evs.
  assert (Hconnected : (run sample_decoder initial evs).(status) = connected)
    by reflexivity.
  exact (conj Hconnected (connected_only_after_onopen sample_decoder evs Hconnected)).
Defined.

(** ** The live set *)

#[local] Instance keeps_live_started_preorder : PreOrder keeps_live_started.
Proof.
  split.
  - intros s Hs. exact Hs.
  - intros s1 s2 s3 H12 H23 H1. apply H23. by apply H12.
Qed.

Lemma live_started_effects (es : list Effect) (s : State) :
  live_started s -> live_started (set_effects (s.(effects) ++ es) s).
Proof.
  unfold live_started, started_nodes, scheduled. simpl.
  intros Hs. eapply Forall_impl; [exact Hs|].
  intros h Hh. rewrite omap_app, fmap_app. apply elem_of_app. by left.
Qed.

Lemma live_started_delete (h : Handle) (s : State) :
  live_started s -> live_started (set_sourcesRef (Set_delete h s.(sourcesRef)) s).
Proof.
  unfold live_started, Set_delete. simpl. intros Hs.
  apply Forall_forall. intros h' Hh'. apply list_elem_of_filter in Hh' as [_ Hh'].
  by apply (proj1 (Forall_forall _ _) Hs).
Qed.

Lemma resumeAudio_live_started (audioBuffer : AudioBuffer) :
  grows keeps_live_started (resumeAudio audioBuffer).
Proof.
  intros s Hs. unfold live_started, started_nodes in *.
  rewrite resumeAudio_scheduled, fmap_app. simpl.
  change (sourcesRef (exec (resumeAudio audioBuffer) s))
    with (Set_add s.(nodes) s.(sourcesRef)).
  assert (Hold : Forall (fun h => h ∈ (chunk_node <$> scheduled s) ++ [nodes s])
                   (sourcesRef s)).
  { eapply Forall_impl; [exact Hs|]. intros h Hh. apply elem_of_app. by left. }
  unfold Set_add. case_bool_decide; [exact Hold|].
  apply Forall_app. split; [exact Hold|].
  apply Forall_singleton, elem_of_app. right. by left.
Qed.

Ltac live_started_leaf :=
  idtac;
  lazymatch goal with
  | |- grows _ (resumeAudio _) => apply resumeAudio_live_started
  | |- grows _ (call _) => intros ? ?; by apply live_started_effects
  | |- grows _ (calls _) => intros ? ?; by apply live_started_effects
  | |- grows _ (modify _) =>
      let H := fresh "H" in
      intros ? H;
      first [ exact H | apply Forall_nil_2 | apply live_started_delete; exact H ]
  end.

Lemma dispatch_live_started (decodeAudio : string -> option AudioBuffer) (ev : Event) :
  grows keeps_live_started (dispatch decodeAudio ev).
Proof.
  destruct ev;
    unfold dispatch, startSession, newAudioContext, onopen, setupAudioInput,
      handleLiveMessage, transcripts, scheduleAudio, beginAudio,
      appendPartial, commit, setMessages, onclose, onerror, onended, ontimeout,
      endSession, closeContext;
    grows_all live_started_leaf.
Qed.

(** X8. Every node in the live set had [start] called on it: a node enters
    the set only right after its [source.start], so the [stop] calls of
    [endSession] only ever reach nodes that were started.  This holds after
    every run from the mounted component. *)
Theorem live_nodes_were_started (decodeAudio : string -> option AudioBuffer)
    (evs : list Event) :
  live_started (run decodeAudio initial evs).
Proof.
  assert (Hinitial : live_started initial) by apply Forall_nil_2.
  revert Hinitial. generalize initial.
  induction evs as [|ev evs IH]; intros s Hs; [done|].
  simpl. apply IH. by apply (dispatch_live_started decodeAudio ev s).
Qed.

(** ** One speaker's turn *)

Lemma updateLastMessage_append (r : Role) (txt : string) (partial : bool) (now : N)
    (prev : list ChatMessage) :
  tail_free r prev ->
  updateLastMessage r txt partial now prev
    = prev ++ [mkChatMessage (toString now) r txt (Some partial) None].
Proof.
  unfold tail_free, updateLastMessage.
  destruct (last prev) as [lastMsg|]; [|done].
  intros [Hrole | Hfinal].
  - by rewrite bool_decide_eq_false_2.
  - by rewrite Hfinal, andb_false_r.
Qed.

Lemma updateLastMessage_replace (r : Role) (txt txt' : string) (partial : bool) (now : N)
    (init : list ChatMessage) (i : string) (c : option string) :
  updateLastMessage r txt' partial now (init ++ [mkChatMessage i r txt (Some true) c])
    = init ++ [mkChatMessage i r txt' (Some partial) c].
Proof.
  unfold updateLastMessage. rewrite last_snoc. simpl.
  rewrite bool_decide_eq_true_2 by done. simpl.
  rewrite length_app. simpl.
  replace (length init + 1 - 1) with (length init) by lia.
  by rewrite take_app_length.
Qed.

Lemma appendPartial_buffer (r : Role) (fragment : option string) (now : N) (s : State) :
  buffer r (exec (appendPartial r fragment now) s)
    = concat_fragment (buffer r s) fragment.
Proof. by destruct r. Qed.

(** Further fragments of the speaker whose partial message is last only
    rewrite the text of that message. *)
Lemma appendPartials_rewrite (r : Role) (calls : list Fragment) (s : State)
    (init : list ChatMessage) (i : string) :
  Forall (fun c => c.(speaker) = r) calls ->
  s.(messages) = init ++ [mkChatMessage i r (buffer r s) (Some true) None] ->
  let s' := appendPartials calls s in
  s'.(messages) = init ++ [mkChatMessage i r (buffer r s') (Some true) None] /\
  buffer r s' = accumulated (buffer r s) calls.
Proof.
  revert s. induction calls as [|c calls IH]; intros s Hcalls Hlog; [done|].
  apply Forall_cons in Hcalls as [Hc Hcalls].
  unfold appendPartials, accumulated. simpl.
  rewrite Hc. rewrite <- (appendPartial_buffer r (fragment_text c) (arrival c) s).
  apply (IH _ Hcalls).
  rewrite appendPartial_messages, Hlog, updateLastMessage_replace.
  by rewrite appendPartial_buffer.
Qed.

(** X9. A turn of one speaker ends in one message.  When the last message
    of the log is not a partial message of the speaker, a run of the
    speaker's fragments followed by the commit adds exactly one message:
    final, with the id taken when the first fragment arrived and the text
    the buffer and the fragments add up to, provided that text is not
    empty; and the speaker's buffer is empty afterwards. *)
Theorem single_speaker_turn (r : Role) (c : Fragment) (calls : list Fragment) (now : N)
    (s : State) :
  Forall (fun c' => c'.(speaker) = r) (c :: calls) ->
  tail_free r s.(messages) ->
  nonempty (accumulated (buffer r s) (c :: calls)) = true ->
  let s' := exec (commit r now) (appendPartials (c :: calls) s) in
  s'.(messages) = s.(messages) ++
    [mkChatMessage (toString c.(arrival)) r (accumulated (buffer r s) (c :: calls))
       (Some false) None] /\
  buffer r s' = "".
Proof.
  intros Hcalls Hfree Hnonempty s'.
  apply Forall_cons in Hcalls as [Hc Hcalls].
  assert (Hfirst : (exec (appendPartial r c.(fragment_text) c.(arrival)) s).(messages)
                   = s.(messages) ++
                     [mkChatMessage (toString c.(arrival)) r
                        (buffer r (exec (appendPartial r c.(fragment_text) c.(arrival)) s))
                        (Some true) None]).
  { rewrite appendPartial_messages, appendPartial_buffer.
    by apply updateLastMessage_append. }
  destruct (appendPartials_rewrite r calls _ _ _ Hcalls Hfirst) as [Hlog Hbuffer].
  rewrite appendPartial_buffer in Hbuffer.
  assert (Hrun : appendPartials (c :: calls) s
                 = appendPartials calls
                     (exec (appendPartial r c.(fragment_text) c.(arrival)) s))
    by (unfold appendPartials; simpl; by rewrite Hc).
  unfold s', exec. rewrite commit_spec, Hrun.
  change (accumulated (buffer r s) (c :: calls))
    with (accumulated (concat_fragment (buffer r s) (fragment_text c)) calls)
    in Hnonempty |- *.
  rewrite <- Hbuffer in Hnonempty |- *. rewrite Hnonempty. simpl.
  split; [|apply buffer_set_buffer].
  destruct r; simpl; by rewrite Hlog, updateLastMessage_replace.
Qed.

Lemma single_speaker_turn_witness :
  let c := mkFragment user (Some "He") 1%N in
  let calls := [mkFragment user (Some "l") 2%N; mkFragment user (Some "lo") 3%N] in
  let s' := exec (commit user 4%N) (appendPartials (c :: calls) open_session) in
  s'.(messages) = [mkChatMessage "1" user "Hello" (Some false) None] /\
  buffer user s' = "".
Proof.
  intros c calls.
  assert (Hcalls : Forall (fun c' => c'.(speaker) = user) (c :: calls))
    by (repeat constructor).
  exact (single_speaker_turn user c calls 4%N open_session Hcalls I eq_refl).
Defined.

(** ** More on playback *)

#[local] Instance never_rewinds_preorder : PreOrder never_rewinds.
Proof.
  split.
  - intros s Hs. split; [apply Qle_refl | done].
  - intros s1 s2 s3 H12 H23 H1.
    destruct (H12 H1) as [Hle Hdouble]. destruct (H23 Hdouble) as [Hle' Hdouble'].
    split; [by apply Qle_trans with (nextStartTimeRef s2) | done].
Qed.

Section Monotone.

Variable decodeAudio : string -> option AudioBuffer.

(** Decoded buffers have a duration that is not negative. *)
Hypothesis duration_nonneg :
  forall (b : string) (audioBuffer : AudioBuffer),
    decodeAudio b = Some audioBuffer -> (0 <= audioBuffer.(duration))%Q.

Lemma scheduleAudio_never_rewinds (base64Audio : string) (currentTime : Time) :
  is_double currentTime ->
  grows never_rewinds (scheduleAudio decodeAudio base64Audio currentTime).
Proof.
  intros Hclock s Hs. unfold exec. rewrite scheduleAudio_spec. cbv zeta.
  pose proof (Math_max_ge_l s.(nextStartTimeRef) currentTime) as Hmax.
  pose proof (Math_max_is_double _ _ Hs Hclock) as Hdouble.
  destruct (decodeAudio base64Audio) as [audioBuffer|] eqn:Hdecode;
    [rewrite resumeAudio_spec|]; simpl; [|done].
  pose proof (duration_nonneg _ _ Hdecode) as Hduration.
  split; [|apply double_is_double].
  unfold Number_add. apply double_ge; [done|]. lra.
Qed.

Ltac never_rewinds_leaf :=
  idtac;
  lazymatch goal with
  | |- grows _ (scheduleAudio _ _ _) => apply scheduleAudio_never_rewinds; assumption
  | |- grows _ (modify _) => intros ? ?; split; [apply Qle_refl | assumption]
  end.

Lemma dispatch_never_rewinds (ev : Event) :
  is_ClickStart ev = false -> double_clock ev ->
  grows never_rewinds (dispatch decodeAudio ev).
Proof.
  destruct ev; intros Hev Hclock; try discriminate; simpl in Hclock;
    unfold dispatch, onopen, setupAudioInput, handleLiveMessage, transcripts,
      appendPartial, commit, setMessages, onclose, onerror, onended, ontimeout,
      endSession, closeContext, call, calls;
    grows_all never_rewinds_leaf.
Qed.

Lemma run_never_rewinds (s : State) (evs : list Event) :
  one_session evs -> Forall double_clock evs -> never_rewinds s (run decodeAudio s evs).
Proof.
  revert s. induction evs as [|ev evs IH]; intros s Hevs Hclocks; [reflexivity|].
  apply Forall_cons in Hevs as [Hev Hevs]. apply Forall_cons in Hclocks as [Hclock Hclocks].
  simpl. transitivity (step decodeAudio s ev); [|by apply IH].
  by apply dispatch_never_rewinds.
Qed.

(** X10. Within a session [nextStartTime] never moves back, whatever
    events arrive, as long as no decoded buffer has a negative duration.
    The numbers are doubles: [nextStartTime] to begin with and every clock
    reading. *)
Theorem nextStartTime_never_rewinds (s : State) (evs : list Event) :
  one_session evs ->
  Forall double_clock evs ->
  is_double s.(nextStartTimeRef) ->
  (s.(nextStartTimeRef) <= (run decodeAudio s evs).(nextStartTimeRef))%Q.
Proof. intros Hevs Hclocks Hs. by apply run_never_rewinds. Qed.

End Monotone.

Lemma sample_decoder_nonneg (b : string) (audioBuffer : AudioBuffer) :
  sample_decoder b = Some audioBuffer -> (0 <= audioBuffer.(duration))%Q.
Proof.
  unfold sample_decoder.
  destruct (forallb is_base64_char (list_ascii_of_string b)); [|done].
  intros [= <-]. simpl. unfold sample_duration.
  apply double_ge; [apply (is_double_inject_Z 0); by vm_compute|].
  unfold Qle. simpl. lia.
Qed.

Lemma nextStartTime_never_rewinds_witness :
  let evs :=
    [OnMessage (audio_message "QUJDREVGR0g=") 2%Q 1%N;
     OnMessage (audio_message "!!!!") 1%Q 2%N;
     Ended 0%nat; Timeout; ClickEnd] in
  one_session evs /\
  (open_session.(nextStartTimeRef)
   <= (run sample_decoder open_session evs).(nextStartTimeRef))%Q.
Proof.
  intros evs.
  assert (Hevs : one_session evs) by (repeat constructor).
  assert (Hclocks : Forall double_clock evs).
  { repeat constructor; simpl.
    - apply (is_double_inject_Z 2). by vm_compute.
    - apply (is_double_inject_Z 1). by vm_compute. }
  assert (Hs : is_double open_session.(nextStartTimeRef)).
  { apply (is_double_inject_Z 0). by vm_compute. }
  exact (conj Hevs
           (nextStartTime_never_rewinds sample_decoder sample_decoder_nonneg
              open_session evs Hevs Hclocks Hs)).
Defined.

Lemma schedule_message_silent (decodeAudio : string -> option AudioBuffer) (t : Time)
    (h : Handle) (ev : Event) :
  silent ev = true -> schedule_message decodeAudio t h ev = (t, h, []).
Proof.
  destruct ev; try done. simpl.
  destruct (optional_audio (serverContent message)) as [base64Audio|]; [|done].
  change (default "" (Some base64Audio)) with base64Audio.
  by destruct (nonempty base64Audio).
Qed.

Lemma playlist_silent (decodeAudio : string -> option AudioBuffer) (t : Time) (h : Handle)
    (before evs : list Event) :
  forallb silent before = true ->
  playlist decodeAudio t h (before ++ evs) = playlist decodeAudio t h evs.
Proof.
  induction before as [|ev before IH]; [done|]. simpl.
  intros [Hev Hbefore]%andb_true_iff.
  by rewrite (schedule_message_silent decodeAudio t h ev Hev), IH.
Qed.

Lemma silent_one_session (evs : list Event) : forallb silent evs = true -> one_session evs.
Proof.
  intros Hevs. apply Forall_forall. intros ev Hev.
  assert (Hsilent : silent ev = true).
  { rewrite forallb_forall in Hevs. apply Hevs. by apply list_elem_of_In. }
  by destruct ev.
Qed.

Section MorePlayback.

Variable decodeAudio : string -> option AudioBuffer.

(** X11. The first chunk of a new session starts at the clock reading: a
    successful start puts [nextStartTime] back to 0, so the cursor of an
    earlier session does not delay the first audio message, which is
    scheduled at its [currentTime], whatever events without an audio
    payload ([onopen], transcriptions, late callbacks of the earlier
    session) come before it. *)
Theorem first_chunk_starts_at_clock (env : Env) (s : State) (stream : MediaStream)
    (before : list Event) (message : LiveServerMessage) (base64Audio : string)
    (currentTime : Time) (now : N) (audioBuffer : AudioBuffer) :
  ready env s = true ->
  env.(audioContextAvailable) = true ->
  env.(getUserMedia) = Some stream ->
  forallb silent before = true ->
  optional_audio message.(serverContent) = Some base64Audio ->
  nonempty base64Audio = true ->
  decodeAudio base64Audio = Some audioBuffer ->
  (0 <= currentTime)%Q ->
  scheduled (run decodeAudio s
               (ClickStart env :: before ++ [OnMessage message currentTime now]))
    = scheduled s ++ [mkChunk s.(nodes) currentTime audioBuffer.(duration)].
Proof.
  intros Hready Havailable Hstream Hbefore Haudio Hnonempty Hdecode Hclock.
  destruct (ready_finalScenario env s Hready) as [sc Hsc].
  assert (Hstarted :
    let s1 := step decodeAudio s (ClickStart env) in
    truthy s1.(outputContextRef) = true /\ s1.(nextStartTimeRef) = 0%Q /\
    s1.(nodes) = s.(nodes) /\ scheduled s1 = scheduled s).
  { unfold step, dispatch, exec. rewrite (startSession_ready env s sc Hready Hsc).
    unfold try_catch, newAudioContext. rewrite Havailable, Hstream.
    unfold call, modify, gets, mbind, mret, M_bind, M_ret. simpl.
    repeat match goal with |- _ /\ _ => split end; try reflexivity.
    unfold scheduled. simpl. rewrite !omap_app. simpl. by rewrite !app_nil_r. }
  destruct Hstarted as (Houtput & Hnext & Hnodes & Hsched).
  assert (Hevs : one_session (before ++ [OnMessage message currentTime now])).
  { apply Forall_app. split; [by apply silent_one_session | by repeat constructor]. }
  change (run decodeAudio s
            (ClickStart env :: before ++ [OnMessage message currentTime now]))
    with (run decodeAudio (step decodeAudio s (ClickStart env))
            (before ++ [OnMessage message currentTime now])).
  rewrite (run_playlist decodeAudio _ _ Hevs Houtput), Hnext, Hnodes, Hsched.
  rewrite (playlist_silent decodeAudio _ _ _ _ Hbefore). simpl.
  rewrite Haudio, Hnonempty, Hdecode. simpl. unfold Math_max.
  by rewrite (proj2 (Qle_bool_iff 0 currentTime) Hclock).
Qed.

End MorePlayback.

Lemma first_chunk_starts_at_clock_witness :
  let s := run sample_decoder open_session
             [OnMessage (audio_message "QUJDREVGR0g=") 7%Q 1%N; ClickEnd] in
  let before := [OnOpen; OnMessage (output_message "Hello") 2%Q 2%N; Ended 0%nat] in
  let message := audio_message "QUJD" in
  s.(nextStartTimeRef) = Number_add 7%Q (sample_duration "QUJDREVGR0g=") /\
  scheduled (run sample_decoder s
               (ClickStart sample_env :: before ++ [OnMessage message 3%Q 3%N]))
    = scheduled s ++ [mkChunk 1 3%Q (sample_duration "QUJD")].
Proof.
  intros s before message.
  assert (Hclock : (0 <= 3)%Q) by (unfold Qle; simpl; lia).
  split; [vm_compute; reflexivity|].
  exact (first_chunk_starts_at_clock sample_decoder sample_env s (mkMediaStream 1) before
           message "QUJD" 3%Q 3%N (mkAudioBuffer (sample_duration "QUJD"))
           eq_refl eq_refl eq_refl eq_refl eq_refl eq_refl eq_refl Hclock).
Defined.

(** ** Errors and the turn marker *)

Lemma appendPartial_normal (r : Role) (fragment : option string) (now : N) (s : State) :
  appendPartial r fragment now s = (Normal tt, exec (appendPartial r fragment now) s).
Proof. reflexivity. Qed.

Lemma commit_normal (r : Role) (now : N) (s : State) :
  commit r now s = (Normal tt, exec (commit r now) s).
Proof. unfold exec. by rewrite commit_spec. Qed.

(** The transcription part of the handler never throws. *)
Lemma transcripts_normal (message : LiveServerMessage) (now : N) (s : State) :
  transcripts message now s = (Normal tt, exec (transcripts message now) s).
Proof.
  unfold exec, transcripts.
  destruct (content ← serverContent message; inputTranscription content) as [t|];
    destruct (content ← serverContent message; outputTranscription content) as [t'|];
    destruct (is_true (content ← serverContent message; turnComplete content));
    unfold when, modify, mbind, mret, M_bind, M_ret;
    rewrite ?appendPartial_normal; simpl;
    rewrite ?appendPartial_normal; simpl;
    rewrite ?(commit_normal user); simpl;
    rewrite ?(commit_normal model); simpl; reflexivity.
Qed.

Lemma commit_buffers (now : N) (s : State) :
  let s' := exec (commit user now ;; commit model now) s in
  s'.(currentInputTransRef) = "" /\ s'.(currentOutputTransRef) = "".
Proof.
  unfold exec, mbind, M_bind. rewrite (commit_spec user). rewrite (commit_spec model).
  simpl.
  destruct (nonempty (currentInputTransRef s)) eqn:Hin; simpl;
    destruct (nonempty (currentOutputTransRef s)) eqn:Hout; simpl; split;
    try reflexivity;
    try (by destruct (currentInputTransRef s));
    by destruct (currentOutputTransRef s).
Qed.

Lemma transcripts_turn_marker (message : LiveServerMessage) (now : N) (s : State) :
  is_true (content ← message.(serverContent) ; content.(turnComplete)) = true ->
  let s' := exec (transcripts message now) s in
  s'.(currentInputTransRef) = "" /\ s'.(currentOutputTransRef) = "".
Proof.
  intros Hturn. unfold transcripts. rewrite Hturn. cbn [when].
  unfold exec.
  destruct (content ← serverContent message; inputTranscription content) as [t|];
    destruct (content ← serverContent message; outputTranscription content) as [t'|];
    unfold modify, mbind at 1 2 3, mret, M_bind at 1 2 3, M_ret;
    rewrite ?appendPartial_normal; simpl;
    rewrite ?appendPartial_normal; simpl;
    apply commit_buffers.
Qed.

#[local] Instance only_transcribes_preorder : PreOrder only_transcribes.
Proof.
  split.
  - intros s. repeat split. by left.
  - intros s1 s2 s3 (He & Hs & Hn & Hl & Hh & Hp & Ht & Hm)
      (He' & Hs' & Hn' & Hl' & Hh' & Hp' & Ht' & Hm').
    unfold only_transcribes.
    repeat match goal with |- _ /\ _ => split end; try congruence.
    destruct Hm' as [Hm' | Hm']; [rewrite Hm'; exact Hm | by right].
Qed.

Ltac only_transcribes_leaf :=
  idtac;
  lazymatch goal with
  | |- grows _ (modify (setAudioMode listening)) =>
      intros ?; repeat split; by right
  | |- grows _ (modify _) => intros ?; repeat split; by left
  end.

(** The transcription part of the handler makes no call and touches
    neither the connection nor playback. *)
Lemma transcripts_only_transcribes (message : LiveServerMessage) (now : N) :
  grows only_transcribes (transcripts message now).
Proof.
  unfold transcripts, appendPartial, commit, setMessages.
  grows_all only_transcribes_leaf.
Qed.

Section Errors.

Variable decodeAudio : string -> option AudioBuffer.

(** X13. A message with the turn marker that is handled to its end leaves
    both transcript buffers empty, whatever else it carries. *)
Theorem turn_marker_empties_buffers (message : LiveServerMessage) (currentTime : Time)
    (now : N) (s s' : State) :
  is_true (content ← message.(serverContent) ; content.(turnComplete)) = true ->
  handleLiveMessage decodeAudio message currentTime now s = (Normal tt, s') ->
  s'.(currentInputTransRef) = "" /\ s'.(currentOutputTransRef) = "".
Proof.
  intros Hturn. rewrite handleLiveMessage_unfold. unfold mbind, M_bind.
  match goal with |- context [when ?b ?c s] => destruct (when b c s) as [[[]|e] s1] end;
    [|done].
  rewrite transcripts_normal. intros [= <-].
  by apply transcripts_turn_marker.
Qed.

(** X14. The message handler fails in one way only: it throws
    [DecodeError], and only when the message carries inline audio that
    does not decode.  It never fails on the transcriptions or the turn
    marker, and never with a [TypeError]. *)
Theorem handler_throws_only_DecodeError (message : LiveServerMessage)
    (currentTime : Time) (now : N) (s : State) :
  match handleLiveMessage decodeAudio message currentTime now s with
  | (Normal _, _) => True
  | (Throw e, _) =>
      e = DecodeError /\
      exists base64Audio : string,
        optional_audio message.(serverContent) = Some base64Audio /\
        decodeAudio base64Audio = None
  end.
Proof.
  rewrite handleLiveMessage_unfold. unfold mbind, M_bind.
  destruct (optional_audio (serverContent message)) as [base64Audio|] eqn:Haudio;
    [|simpl; by rewrite transcripts_normal].
  change (default "" (Some base64Audio)) with base64Audio.
  destruct (nonempty base64Audio && truthy (outputContextRef s)); cbn [when];
    [|simpl; by rewrite transcripts_normal].
  rewrite scheduleAudio_spec. cbv zeta.
  destruct (decodeAudio base64Audio) eqn:Hdecode.
  - rewrite resumeAudio_spec. by rewrite transcripts_normal.
  - split; [done|]. by exists base64Audio.
Qed.

(** X12. A message without usable audio is a matter of the transcript
    only: when it carries no inline data, or the data is the empty string,
    or no output context exists, the handler returns normally, makes no
    call, leaves the status, [nextStartTime], the live set, the source
    nodes and the timers as they are, and does not set the indicator to
    [speaking]. *)
Theorem handler_without_usable_audio (message : LiveServerMessage) (currentTime : Time)
    (now : N) (s : State) :
  optional_audio message.(serverContent) = None \/
  optional_audio message.(serverContent) = Some "" \/
  s.(outputContextRef) = None ->
  let s' := step decodeAudio s (OnMessage message currentTime now) in
  handleLiveMessage decodeAudio message currentTime now s = (Normal tt, s') /\
  only_transcribes s s'.
Proof.
  intros Hskip s'.
  assert (Hguard : nonempty (default "" (optional_audio message.(serverContent)))
                   && truthy s.(outputContextRef) = false).
  { destruct Hskip as [-> | [-> | ->]]; [done | done | apply andb_false_r]. }
  assert (Hhandler : handleLiveMessage decodeAudio message currentTime now s
                     = transcripts message now s).
  { rewrite handleLiveMessage_unfold, Hguard. reflexivity. }
  unfold s', step, dispatch, exec. rewrite Hhandler, transcripts_normal.
  split; [done|]. apply transcripts_only_transcribes.
Qed.

End Errors.

Lemma handler_without_usable_audio_witness :
  let message := input_message "Hi" in
  let s' := step sample_decoder open_session (OnMessage message 0%Q 1%N) in
  handleLiveMessage sample_decoder message 0%Q 1%N open_session = (Normal tt, s') /\
  only_transcribes open_session s'.
Proof.
  intros message.
  exact (handler_without_usable_audio sample_decoder message 0%Q 1%N open_session
           (or_introl eq_refl)).
Defined.

Lemma turn_marker_empties_buffers_witness :
  let s := run sample_decoder open_session
             [OnMessage (input_message "Hi") 0%Q 1%N;
              OnMessage (output_message "Hello") 0%Q 2%N] in
  let s' := step sample_decoder s (OnMessage turn_complete_message 0%Q 3%N) in
  (s.(currentInputTransRef) = "Hi" /\ s.(currentOutputTransRef) = "Hello") /\
  s'.(currentInputTransRef) = "" /\ s'.(currentOutputTransRef) = "".
Proof.
  intros s s'. split; [split; reflexivity|].
  exact (turn_marker_empties_buffers sample_decoder turn_complete_message 0%Q 3%N s s'
           eq_refl eq_refl).
Defined.

(** ** Capture set-up and playback completion *)

(** X15. When the transport opens after a successful start, capture is set
    up once: the status is [connected], one script processor with a buffer
    of 4096 frames is created and kept in its ref, and nothing else is
    called. *)
Theorem onopen_sets_up_capture (decodeAudio : string -> option AudioBuffer) (env : Env)
    (s : State) (stream : MediaStream) :
  ready env s = true ->
  env.(audioContextAvailable) = true ->
  env.(getUserMedia) = Some stream ->
  let s1 := step decodeAudio s (ClickStart env) in
  let s2 := step decodeAudio s1 OnOpen in
  s2.(status) = connected /\
  s2.(scriptProcessorRef) = Some (mkScriptProcessor 4096) /\
  s2.(effects) = s1.(effects) ++
    [CreateMediaStreamSource; CreateScriptProcessor 4096 1 1;
     Connect MicrophoneSource Processor; Connect Processor InputDestination] /\
  s2.(streamRef) = Some stream /\ s2.(messages) = [].
Proof.
  intros Hready Havailable Hstream s1 s2.
  destruct (ready_finalScenario env s Hready) as [sc Hsc].
  unfold s2, s1, step, dispatch, exec.
  rewrite (startSession_ready env s sc Hready Hsc).
  unfold try_catch, newAudioContext. rewrite Havailable, Hstream.
  unfold onopen, setupAudioInput, call, modify, gets, mbind, mret, M_bind, M_ret. simpl.
  repeat match goal with |- _ /\ _ => split end; try reflexivity.
  by rewrite <- !app_assoc.
Qed.

Lemma onopen_sets_up_capture_witness :
  let s := run sample_decoder initial [TypeCustomScenario "Job Interview"] in
  let s1 := step sample_decoder s (ClickStart sample_env) in
  let s2 := step sample_decoder s1 OnOpen in
  s2.(status) = connected /\
  s2.(scriptProcessorRef) = Some (mkScriptProcessor 4096) /\
  s2.(effects) = s1.(effects) ++
    [CreateMediaStreamSource; CreateScriptProcessor 4096 1 1;
     Connect MicrophoneSource Processor; Connect Processor InputDestination] /\
  s2.(streamRef) = Some (mkMediaStream 1) /\ s2.(messages) = [].
Proof.
  intros s.
  exact (onopen_sets_up_capture sample_decoder sample_env s (mkMediaStream 1)
           eq_refl eq_refl eq_refl).
Defined.

Lemma Set_delete_nil_iff (h : Handle) (set : list Handle) :
  Set_delete h set = [] <-> Forall (fun h' => h' = h) set.
Proof.
  unfold Set_delete. induction set as [|h' set IH]; [done|].
  rewrite filter_cons. destruct (decide (h' <> h)) as [Hne | Heq].
  - split; [done|]. intros Hall. by apply Forall_cons in Hall as [? _].
  - assert (h' = h) as -> by (by destruct (decide (h' = h))).
    rewrite IH. split.
    + intros Hall. by apply Forall_cons.
    + intros Hall. by apply Forall_cons in Hall as [_ ?].
Qed.

(** X16. The completion callback of a node takes the node out of the live
    set and leaves the indicator alone; it arms the 200 ms timeout exactly
    when no other node is live, so the indicator does not fall back to
    listening between the chunks of one utterance. *)
Theorem ended_arms_timeout_when_last (decodeAudio : string -> option AudioBuffer)
    (s : State) (h : Handle) :
  h ∈ s.(pendingEnded) ->
  let s' := step decodeAudio s (Ended h) in
  (h ∉ s'.(sourcesRef)) /\
  (forall h' : Handle, h' <> h -> (h' ∈ s'.(sourcesRef) <-> h' ∈ s.(sourcesRef))) /\
  s'.(audioMode) = s.(audioMode) /\
  s'.(timers) =
    (if bool_decide (Forall (fun h' => h' = h) s.(sourcesRef))
     then S s.(timers) else s.(timers)) /\
  s'.(effects) = s.(effects) ++
    (if bool_decide (Forall (fun h' => h' = h) s.(sourcesRef))
     then [SetTimeout 200] else []).
Proof.
  intros Hpending s'.
  assert (Hs' : s' = exec (onended h)
                       (set_pendingEnded (Set_delete h s.(pendingEnded)) s)).
  { unfold s', step, dispatch, exec, gets, mbind, M_bind. simpl.
    by rewrite bool_decide_eq_true_2. }
  rewrite Hs'. clear Hs' s'.
  unfold exec, onended, call, when, modify, gets, mbind, mret, M_bind, M_ret. simpl.
  pose proof (Set_delete_nil_iff h s.(sourcesRef)) as Hnil.
  destruct (Set_delete h (sourcesRef s)) as [|h0 rest] eqn:Hdelete; simpl.
  - rewrite bool_decide_eq_true_2 by (by apply Hnil).
    repeat match goal with |- _ /\ _ => split end; try reflexivity.
    + apply not_elem_of_nil.
    + intros h' Hne. split; [by intros ?%elem_of_nil|].
      intros Hh'. exfalso. apply Hne.
      by apply (proj1 (Forall_forall _ _) (proj1 Hnil eq_refl)).
  - rewrite bool_decide_eq_false_2 by (intros Hall; by apply Hnil in Hall).
    rewrite app_nil_r.
    repeat match goal with |- _ /\ _ => split end; try reflexivity.
    + rewrite <- Hdelete. unfold Set_delete. rewrite list_elem_of_filter. tauto.
    + intros h' Hne. rewrite <- Hdelete. unfold Set_delete.
      rewrite list_elem_of_filter. tauto.
Qed.

Lemma ended_arms_timeout_when_last_witness :
  let s := run sample_decoder open_session
             [OnMessage (audio_message "QUJDREVGR0g=") 0%Q 1%N;
              OnMessage (audio_message "QUJD") 0%Q 2%N] in
  let s' := step sample_decoder s (Ended 0%nat) in
  let s'' := step sample_decoder s' (Ended 1%nat) in
  (s'.(sourcesRef) = [1%nat] /\ s'.(timers) = 0%nat) /\
  (s''.(sourcesRef) = [] /\ s''.(timers) = 1%nat) /\
  s'.(audioMode) = s.(audioMode).
Proof.
  intros s s' s''.
  assert (Hpending : 0%nat ∈ s.(pendingEnded)) by (vm_compute; apply list_elem_of_here).
  split; [split; reflexivity|]. split; [split; reflexivity|].
  exact (proj1 (proj2 (proj2 (ended_arms_timeout_when_last sample_decoder s 0%nat
                                Hpending)))).
Defined.

(** ** Across events and sessions *)

(** X17. A committed message is never touched again in its session: a
    final message keeps its index and its content through every event
    that is not a new start, commits and teardown included. *)
Theorem committed_messages_survive (decodeAudio : string -> option AudioBuffer)
    (s : State) (evs : list Event) (i : nat) (m : ChatMessage) :
  one_session evs ->
  s.(messages) !! i = Some m ->
  is_true m.(isPartial) = false ->
  (run decodeAudio s evs).(messages) !! i = Some m.
Proof. intros Hevs. by apply run_keeps_final. Qed.

Lemma committed_messages_survive_witness :
  let s := run sample_decoder open_session
             [OnMessage (input_message "Hi") 0%Q 1%N;
              OnMessage turn_complete_message 0%Q 2%N] in
  let evs :=
    [OnMessage (input_message "How are you") 0%Q 3%N;
     OnMessage (output_message "Fine") 0%Q 4%N;
     OnMessage turn_complete_message 0%Q 5%N;
     OnClose; ClickEnd] in
  let m := mkChatMessage "1" user "Hi" (Some false) None in
  (run sample_decoder s evs).(messages) !! 0%nat = Some m.
Proof.
  intros s evs m.
  assert (Hevs : one_session evs) by (repeat constructor).
  exact (committed_messages_survive sample_decoder s evs 0 m Hevs eq_refl eq_refl).
Defined.

Lemma endSession_clears (s : State) :
  let s' := exec endSession s in
  s'.(sourcesRef) = [] /\ s'.(currentInputTransRef) = "" /\
  s'.(currentOutputTransRef) = "" /\
  s'.(selectedScenario) = s.(selectedScenario) /\
  s'.(customScenario) = s.(customScenario) /\
  s'.(learningMode) = s.(learningMode).
Proof.
  destruct s as [? ? ? ? ? ? ? [?|] [?|] [?|] ? ? [?|] [?|] ? ? ? ? ? ?];
    cbv zeta; repeat match goal with |- _ /\ _ => split end; vm_compute; reflexivity.
Qed.

(** X18. Ending a session and starting the next one gives a clean slate:
    after [endSession] and a start that succeeds, the log is empty, both
    transcript buffers are empty, no playback handle is live and
    [nextStartTime] is 0.  The start alone resets only the log and
    [nextStartTime]; the buffers and the live set are what it finds. *)
Theorem restart_is_clean (decodeAudio : string -> option AudioBuffer) (env : Env)
    (s : State) (stream : MediaStream) :
  ready env s = true ->
  env.(audioContextAvailable) = true ->
  env.(getUserMedia) = Some stream ->
  let s' := run decodeAudio s [ClickEnd; ClickStart env] in
  let s1 := step decodeAudio s (ClickStart env) in
  (s'.(status) = connecting /\ s'.(messages) = [] /\ s'.(sourcesRef) = [] /\
   s'.(currentInputTransRef) = "" /\ s'.(currentOutputTransRef) = "" /\
   s'.(nextStartTimeRef) = 0%Q) /\
  (s1.(sourcesRef) = s.(sourcesRef) /\
   s1.(currentInputTransRef) = s.(currentInputTransRef) /\
   s1.(currentOutputTransRef) = s.(currentOutputTransRef)).
Proof.
  intros Hready Havailable Hstream s' s1.
  assert (Hstart : forall s0 : State, ready env s0 = true ->
    let s2 := step decodeAudio s0 (ClickStart env) in
    s2.(status) = connecting /\ s2.(messages) = [] /\ s2.(nextStartTimeRef) = 0%Q /\
    s2.(sourcesRef) = s0.(sourcesRef) /\
    s2.(currentInputTransRef) = s0.(currentInputTransRef) /\
    s2.(currentOutputTransRef) = s0.(currentOutputTransRef)).
  { intros s0 Hready0.
    destruct (ready_finalScenario env s0 Hready0) as [sc Hsc].
    unfold step, dispatch, exec. rewrite (startSession_ready env s0 sc Hready0 Hsc).
    unfold try_catch, newAudioContext. rewrite Havailable, Hstream.
    unfold call, modify, gets, mbind, mret, M_bind, M_ret. simpl.
    repeat match goal with |- _ /\ _ => split end; reflexivity. }
  destruct (endSession_clears s) as (Hsources & Hin & Hout & Hsel & Hcustom & _).
  assert (Hready' : ready env (exec endSession s) = true).
  { unfold ready in *. by rewrite Hsel, Hcustom. }
  split.
  - destruct (Hstart _ Hready') as (Hstatus & Hlog & Hnext & Hsrc' & Hin' & Hout').
    change s' with (step decodeAudio (exec endSession s) (ClickStart env)).
    rewrite Hsrc', Hin', Hout'.
    repeat match goal with |- _ /\ _ => split end; done.
  - destruct (Hstart _ Hready) as (_ & _ & _ & Hsrc' & Hin' & Hout'). done.
Qed.

Lemma restart_is_clean_witness :
  let s := run sample_decoder open_session
             [OnMessage (input_message "Hi") 0%Q 1%N;
              OnMessage (audio_message "QUJDREVGR0g=") 5%Q 2%N] in
  let s' := run sample_decoder s [ClickEnd; ClickStart sample_env] in
  let s1 := step sample_decoder s (ClickStart sample_env) in
  (s'.(status) = connecting /\ s'.(messages) = [] /\ s'.(sourcesRef) = [] /\
   s'.(currentInputTransRef) = "" /\ s'.(currentOutputTransRef) = "" /\
   s'.(nextStartTimeRef) = 0%Q) /\
  (s1.(sourcesRef) = [0%nat] /\ s1.(currentInputTransRef) = "Hi" /\
   s1.(currentOutputTransRef) = "").
Proof.
  intros s.
  exact (restart_is_clean sample_decoder sample_env s (mkMediaStream 1)
           eq_refl eq_refl eq_refl).
Defined.

(** ** What the screens show *)

(** X19. Exactly the card that was clicked is drawn as chosen: after one
    of the predefined scenarios is selected, it is the only highlighted
    card, and as soon as custom text is typed no card is highlighted. *)
Theorem clicked_card_is_highlighted (decodeAudio : string -> option AudioBuffer)
    (s : State) (sc : Scenario) :
  sc ∈ PREDEFINED_SCENARIOS ->
  let s' := step decodeAudio s (SelectScenario sc) in
  filter (fun c => highlighted s' c = true) PREDEFINED_SCENARIOS = [sc] /\
  forall txt : string,
    filter (fun c => highlighted (step decodeAudio s' (TypeCustomScenario txt)) c = true)
      PREDEFINED_SCENARIOS = [].
Proof.
  intros Hsc s'. unfold PREDEFINED_SCENARIOS in Hsc.
  repeat (apply elem_of_cons in Hsc as [-> | Hsc]);
    [| | | | by apply elem_of_nil in Hsc];
    (split; [vm_compute; reflexivity | intros txt; reflexivity]).
Qed.

Lemma clicked_card_is_highlighted_witness :
  let sc := mkScenario "airport" "At the Airport"
              "Êú∫Âú∫ÂÄºÊú∫ / Check-in" "‚úàÔ∏è" in
  let s' := step sample_decoder open_session (SelectScenario sc) in
  filter (fun c => highlighted s' c = true) PREDEFINED_SCENARIOS = [sc].
Proof.
  intros sc.
  assert (Hsc : sc ∈ PREDEFINED_SCENARIOS) by (apply list_elem_of_lookup; by exists 1%nat).
  exact (proj1 (clicked_card_is_highlighted sample_decoder open_session sc Hsc)).
Defined.

(** X20. The heading of the session screen names the scenario the tutor was
    given: as long as a selection and custom text do not stand side by
    side, the heading is the custom text when [startSession] settles on
    the custom scenario, and the title of the selected scenario otherwise. *)
Theorem heading_names_final_scenario (s : State) (sc : Scenario) :
  exclusive_choice s ->
  finalScenario s = Some sc ->
  heading s =
    Some (if nonempty (trim s.(customScenario)) then sc.(description) else sc.(title)).
Proof.
  unfold exclusive_choice, finalScenario, heading. intros Hexclusive Hfinal.
  destruct (nonempty (trim (customScenario s))) eqn:Htrim.
  - injection Hfinal as <-. simpl.
    destruct (customScenario s); [done | done].
  - rewrite Hfinal. destruct Hexclusive as [Hnone | ->]; [congruence | done].
Qed.

Lemma heading_names_final_scenario_witness :
  let s := run sample_decoder initial [TypeCustomScenario " Job Interview "] in
  heading s = Some " Job Interview ".
Proof.
  intros s.
  exact (heading_names_final_scenario s
           (mkScenario "custom" "Custom Topic" " Job Interview " "‚ú®")
           (or_introl eq_refl) eq_refl).
Defined.
